(** * ChainSentry: the finalized-block tracker of relayer/chainsentry

    A shallow embedding of [relayer/chainsentry/chainsentry.go] and the
    properties of its block queue.

    Conventions of the embedding.
    - Go's [int64] (and [int], taken to be 64 bits wide) is [Z]; every
      arithmetic operation of the source is followed by [wrap64], the
      two's-complement wrap-around.
    - A block is what [json.Unmarshal] decodes into
      [map[string]interface{}]: a finite map from field names to values.
    - The JSON-RPC endpoint behind [cs.chainProxy] is an external
      collaborator.  One call of [Init] or [catchupOnFinalizedBlocks] sees
      it as a [ChainProxy]: the reply to [eth_blockNumber] and, for every
      height, the reply to [eth_getBlockByNumber].
    - [log.Fatalln] ends the process ([os.Exit(1)]); an index or slice
      bound out of range raises a run-time panic.  Both are outcomes of a
      call, and carry the tracker state at that moment.
    - The mutex [blockQueueMu] is not modelled: calls are run one at a time,
      and no call of the source blocks on the mutex when run alone. *)

From stdpp Require Import gmap strings list list_numbers sorting pretty.

Local Open Scope Z_scope.

(** ** Machine integers *)

Definition minInt64 : Z := - 2 ^ 63.
Definition maxInt64 : Z := 2 ^ 63 - 1.

Definition wrap64 (z : Z) : Z := (z + 2 ^ 63) mod 2 ^ 64 - 2 ^ 63.

Definition inInt64 (z : Z) : Prop := minInt64 <= z <= maxInt64.

(** ** Values and blocks *)

(** What an [interface{}] holds after decoding JSON.  Numbers ([float64])
    are left out: the tracker never inspects one. *)
#[warnings="-register-all"]
Inductive value : Type :=
| VNil
| VBool (b : bool)
| VString (s : string)
| VArray (vs : list value)
| VObject (fields : list (string * value)).

(** Go's error values raised on the way to the endpoint and back, named
    after the call that returned them. *)
Inductive error : Type :=
| ErrParseMsg
| ErrSend
| ErrUnmarshal.

(** The endpoint as one call sees it. [ethBlockNumber] is the height that
    [strconv.ParseInt] reads from the reply (its own error is dropped by the
    source, so an unreadable number counts as the value [ParseInt] leaves),
    or the error of [ParseMsg], [Send] or [json.Unmarshal].
    [ethGetBlockByNumber n] is the decoded [result] object for height [n],
    or the error met on the way. *)
Record ChainProxy : Type := mkChainProxy {
  ethBlockNumber : error + Z;
  ethGetBlockByNumber : Z → error + gmap string value
}.

(** ** The tracker *)

Definition DEFAULT_NUM_FINAL_BLOCKS : Z := 3.
Definition DEFAULT_NUM_SAVED_BLOCKS : Z := 7.

Record ChainSentry : Type := mkChainSentry {
  finalizedBlockDistance : Z;
  numFinalBlocks : Z;
  latestBlockNum : Z;
  ChainID : string;
  blocksQueue : list (gmap string value)
}.

Definition NewChainSentry (chainID : string) : ChainSentry :=
  {| finalizedBlockDistance := DEFAULT_NUM_SAVED_BLOCKS;
     numFinalBlocks := DEFAULT_NUM_FINAL_BLOCKS;
     latestBlockNum := 0;
     ChainID := chainID;
     blocksQueue := [] |}.

Definition withLatestBlockNum (v : Z) (cs : ChainSentry) : ChainSentry :=
  {| finalizedBlockDistance := finalizedBlockDistance cs;
     numFinalBlocks := numFinalBlocks cs;
     latestBlockNum := v;
     ChainID := ChainID cs;
     blocksQueue := blocksQueue cs |}.

Definition withBlocksQueue (q : list (gmap string value)) (cs : ChainSentry)
  : ChainSentry :=
  {| finalizedBlockDistance := finalizedBlockDistance cs;
     numFinalBlocks := numFinalBlocks cs;
     latestBlockNum := latestBlockNum cs;
     ChainID := ChainID cs;
     blocksQueue := q |}.

(** How a call ends. *)
Inductive outcome (A : Type) : Type :=
| Returned (r : A) (cs : ChainSentry)
| Exited (cs : ChainSentry)
| Panicked (cs : ChainSentry).

Arguments Returned {A} r cs.
Arguments Exited {A} cs.
Arguments Panicked {A} cs.

(** ** Accessors *)

Definition GetLatestBlockNum (cs : ChainSentry) : Z := latestBlockNum cs.

Definition SetLatestBlockNum (v : Z) (cs : ChainSentry) : ChainSentry :=
  withLatestBlockNum v cs.

(** The hash stored in a block: indexing a Go map at a missing key gives
    the zero value, a nil interface. *)
Definition hashOf (blk : gmap string value) : value :=
  default VNil (blk !! "hash"%string).

(** The loop of [GetLatestBlockData]. [i] runs from [0] while
    [i < numFinalBlocks]; [todo] is the number of rounds left, so [i + 1]
    never leaves [int]. *)
Fixpoint collectHashes (todo : nat) (i : Z) (cs : ChainSentry)
    (latest : Z) (hashes : gmap Z value) : option (gmap Z value) :=
  match todo with
  | O => Some hashes
  | S todo' =>
      let blockNum :=
        wrap64 (wrap64 (wrap64 (latest - finalizedBlockDistance cs)
                        - numFinalBlocks cs) + i) in
      match blocksQueue cs !! Z.to_nat i with
      | Some blk =>
          collectHashes todo' (i + 1) cs latest (<[blockNum := hashOf blk]> hashes)
      | None => None
      end
  end.

Definition GetLatestBlockData (cs : ChainSentry)
  : outcome (Z * gmap Z value * option error) :=
  let latest := GetLatestBlockNum cs in
  match collectHashes (Z.to_nat (numFinalBlocks cs)) 0 cs latest ∅ with
  | Some hashes => Returned (latest, hashes, None) cs
  | None => Panicked cs
  end.

(** ** Talking to the endpoint *)

Definition fetchLatestBlockNum (cp : ChainProxy) : Z * option error :=
  match ethBlockNumber cp with
  | inl err => (-1, Some err)
  | inr latestBlock => (latestBlock, None)
  end.

(** [fetchBlockByNum] ends the process on every error; [None] is that
    exit.  When it returns, the error it returns is nil. *)
Definition fetchBlockByNum (cp : ChainProxy) (blockNum : Z)
  : option (gmap string value * option error) :=
  match ethGetBlockByNumber cp blockNum with
  | inl _ => None
  | inr result => Some (result, None)
  end.

(** ** Filling the queue *)

(** The [for] loop shared, body for body, by [Init] (from the oldest
    finalized height) and [catchupOnFinalizedBlocks] (from the height after
    the stored one): fetch block [i], end the process on failure, append.
    [fuel] bounds the number of rounds; [None] is fuel exhausted, and
    [Returned None] is the loop run to its end. *)
Fixpoint fetchLoop (fuel : nat) (cp : ChainProxy) (hi i : Z) (cs : ChainSentry)
  : option (outcome (option error)) :=
  if i <=? hi then
    match fuel with
    | O => None
    | S fuel' =>
        match fetchBlockByNum cp i with
        | None => Some (Exited cs)
        | Some (_, Some _) => Some (Exited cs)
        | Some (result, None) =>
            fetchLoop fuel' cp hi (wrap64 (i + 1))
              (withBlocksQueue (blocksQueue cs ++ [result]) cs)
        end
    end
  else Some (Returned None cs).

Definition Init (fuel : nat) (cp : ChainProxy) (cs : ChainSentry)
  : option (outcome (option error)) :=
  match fetchLatestBlockNum cp with
  | (_, Some _) => Some (Exited cs)
  | (latestBlock, None) =>
      let cs1 := SetLatestBlockNum latestBlock cs in
      fetchLoop fuel cp
        (wrap64 (wrap64 (latestBlock - finalizedBlockDistance cs1) - 1))
        (wrap64 (latestBlock
                 - wrap64 (finalizedBlockDistance cs1 + numFinalBlocks cs1)))
        cs1
  end.

(** The error of the height fetch is only logged: the cycle goes on with
    the [-1] that [fetchLatestBlockNum] returned next to it. *)
Definition catchupOnFinalizedBlocks (fuel : nat) (cp : ChainProxy)
    (cs : ChainSentry) : option (outcome (option error)) :=
  let '(latestBlock, _) := fetchLatestBlockNum cp in
  if negb (latestBlockNum cs =? latestBlock) then
    let prevLatestBlock := GetLatestBlockNum cs in
    match fetchLoop fuel cp latestBlock (wrap64 (prevLatestBlock + 1)) cs with
    | Some (Returned _ cs1) =>
        let low := wrap64 (latestBlock - prevLatestBlock) in
        if (0 <=? low) && (low <=? Z.of_nat (length (blocksQueue cs1))) then
          Some (Returned None
                  (withLatestBlockNum latestBlock
                     (withBlocksQueue (drop (Z.to_nat low) (blocksQueue cs1)) cs1)))
        else Some (Panicked cs1)
    | other => other
    end
  else Some (Returned None cs).

(** One call after another, as the ticker of [Start] runs the cycles: the
    next call sees the state the previous one returned with, and nothing
    runs once the process has exited or panicked.  The value a cycle
    returns is dropped, as [Start] drops it. *)
Definition andThen {A B : Type} (run : option (outcome A))
    (next : ChainSentry → option (outcome B)) : option (outcome B) :=
  match run with
  | Some (Returned _ cs) => next cs
  | Some (Exited cs) => Some (Exited cs)
  | Some (Panicked cs) => Some (Panicked cs)
  | None => None
  end.

(** ** Tracker states *)

(** The tracker as [NewChainSentry] leaves it, before [Init]: no height
    stored, nothing queued. *)
Definition Uninitialized (cs : ChainSentry) : Prop :=
  latestBlockNum cs = 0 ∧ blocksQueue cs = [].

(** The two sizes are counts, and their sum is an [int]. *)
Definition saneConfig (cs : ChainSentry) : Prop :=
  0 <= finalizedBlockDistance cs ∧ 0 <= numFinalBlocks cs ∧
  finalizedBlockDistance cs + numFinalBlocks cs <= maxInt64.

(** The heights an endpoint reports are block heights: not negative, and
    below the largest [int64]. *)
Definition reportsHeight (cp : ChainProxy) : Prop :=
  ∀ h, ethBlockNumber cp = inr h → 0 <= h < maxInt64.

(** [Ready]: reached by a successful [Init] of an uninitialized tracker and
    kept by every successful refresh cycle. *)
Inductive Ready : ChainSentry → Prop :=
| Ready_Init fuel cp cs0 cs :
    Uninitialized cs0 → saneConfig cs0 → reportsHeight cp →
    Init fuel cp cs0 = Some (Returned None cs) →
    Ready cs
| Ready_Refresh fuel cp cs cs' :
    Ready cs → reportsHeight cp →
    catchupOnFinalizedBlocks fuel cp cs = Some (Returned None cs') →
    Ready cs'.

(** ** Which blocks a queue holds *)

(** The queue stores what the endpoint sent and no height next to it.  A
    queue [q] holds the heights [ns] when its blocks are, position by
    position, the blocks the endpoint serves for these heights. *)
Definition served (cp : ChainProxy) (n : Z) (blk : gmap string value) : Prop :=
  ethGetBlockByNumber cp n = inr blk.

Definition holds (cp : ChainProxy) (ns : list Z) (q : list (gmap string value))
  : Prop :=
  Forall2 (served cp) ns q.

(** ** The poller *)

(** [Start] returns nil at once and leaves a goroutine behind that runs one
    refresh cycle per tick of its ticker and drops what the cycle returns.
    The channel [quit] is local to [Start] and nothing ever sends on it, so
    the goroutine only ever takes the ticker branch.  [ticks] lists the
    endpoint as the cycle of each tick sees it; [Returned tt] is the
    goroutine waiting for its next tick. *)
Fixpoint StartPoller (fuel : nat) (ticks : list ChainProxy) (cs : ChainSentry)
  : option (outcome unit) :=
  match ticks with
  | [] => Some (Returned tt cs)
  | cp :: later =>
      andThen (catchupOnFinalizedBlocks fuel cp cs) (StartPoller fuel later)
  end.

(** The state a cycle returns with when the endpoint reports the height
    [newTip], not below the stored one, and serves [blk n] for the heights
    [n] in between: the assignments at the end of
    [catchupOnFinalizedBlocks], on the queue its loop has filled. *)
Definition advancedTo (newTip : Z) (blk : Z → gmap string value)
    (cs : ChainSentry) : ChainSentry :=
  withLatestBlockNum newTip
    (withBlocksQueue
       (drop (Z.to_nat (newTip - latestBlockNum cs))
          (blocksQueue cs
           ++ (blk <$> seqZ (latestBlockNum cs + 1) (newTip - latestBlockNum cs))))
       cs).

(** The state an outcome carries. *)
Definition stateOf {A : Type} (o : outcome A) : ChainSentry :=
  match o with
  | Returned _ cs => cs
  | Exited cs => cs
  | Panicked cs => cs
  end.

(** The three fields that [NewChainSentry] sets and no method assigns. *)
Definition sameConfig (cs cs' : ChainSentry) : Prop :=
  finalizedBlockDistance cs' = finalizedBlockDistance cs ∧
  numFinalBlocks cs' = numFinalBlocks cs ∧
  ChainID cs' = ChainID cs.

(** ** A test endpoint *)

(** Block [n] of the test chain carries its height as its hash. *)
Definition testBlock (n : Z) : gmap string value :=
  {[ "hash"%string := VString (pretty n) ]}.

(** A chain at height [tip] whose blocks at the heights in [down] cannot be
    fetched. *)
Definition testChain (tip : error + Z) (down : list Z) : ChainProxy :=
  {| ethBlockNumber := tip;
     ethGetBlockByNumber := λ n,
       if decide (n ∈ down) then inl ErrSend else inr (testBlock n) |}.

(** A chain at height [tip] that starts at block [0]: asked for a negative
    height, the endpoint sends nothing that decodes to a block. *)
Definition youngChain (tip : Z) : ChainProxy :=
  {| ethBlockNumber := inr tip;
     ethGetBlockByNumber := λ n,
       if decide (n < 0) then inl ErrUnmarshal else inr (testBlock n) |}.

Definition queued (tip : Z) (ns : list Z) : ChainSentry :=
  {| finalizedBlockDistance := 7; numFinalBlocks := 3; latestBlockNum := tip;
     ChainID := "ETH1"; blocksQueue := testBlock <$> ns |}.

Definition stateA : ChainSentry := queued 100 [90; 91; 92].

(** * Properties *)

(** ** Arithmetic within range *)

Lemma wrap64_id z : inInt64 z → wrap64 z = z.
Proof.
  unfold inInt64, minInt64, maxInt64, wrap64. intros Hz.
  rewrite Z.mod_small; lia.
Qed.

Ltac int64 := unfold inInt64, minInt64, maxInt64 in *; lia.

(** Drop every [wrap64] whose argument is in range, innermost first. *)
Ltac unwrap :=
  repeat match goal with
         | |- context [wrap64 ?z] => rewrite (wrap64_id z) by int64
         end.

(** ** Record updates *)

Lemma withBlocksQueue_same cs : withBlocksQueue (blocksQueue cs) cs = cs.
Proof. by destruct cs. Qed.

Lemma withBlocksQueue_twice q q' cs :
  withBlocksQueue q' (withBlocksQueue q cs) = withBlocksQueue q' cs.
Proof. done. Qed.

Lemma seqZ_succ i (n : nat) :
  seqZ i (Z.of_nat (S n)) = i :: seqZ (i + 1) (Z.of_nat n).
Proof.
  rewrite seqZ_cons by lia. f_equal. f_equal; lia.
Qed.

(** ** The fetch loop *)

(** When every block from [i] to [hi] can be fetched, the loop returns
    after appending them in ascending order. *)
Lemma fetchLoop_all_fetched (n : nat) : ∀ fuel cp hi i cs blk,
  hi < maxInt64 → minInt64 <= i → i + Z.of_nat n = hi + 1 →
  (∀ k, i <= k <= hi → ethGetBlockByNumber cp k = inr (blk k)) →
  (n ≤ fuel)%nat →
  fetchLoop fuel cp hi i cs
  = Some (Returned None
            (withBlocksQueue (blocksQueue cs ++ (blk <$> seqZ i (Z.of_nat n))) cs)).
Proof.
  induction n as [|n IH]; intros fuel cp hi i cs blk Hhi Hi Hn Hblk Hfuel.
  - destruct fuel; simpl; (case_eq (i <=? hi); [rewrite Z.leb_le; lia|]);
      intros _; by rewrite app_nil_r, withBlocksQueue_same.
  - destruct fuel as [|fuel]; [lia|]. simpl.
    case_eq (i <=? hi); [intros _|rewrite Z.leb_gt; lia].
    unfold fetchBlockByNum. rewrite (Hblk i) by lia. unwrap.
    rewrite (IH fuel cp hi (i + 1) _ blk) by (auto with lia).
    rewrite withBlocksQueue_twice. simpl.
    by rewrite seqZ_succ, fmap_cons, <- app_assoc.
Qed.

(** When block [k] is the first that cannot be fetched, the loop ends the
    process there, the blocks below [k] already appended. *)
Lemma fetchLoop_first_failure (n : nat) : ∀ fuel cp hi i k cs blk err,
  hi <= maxInt64 → minInt64 <= i → i + Z.of_nat n = k → k <= hi →
  (∀ j, i <= j < k → ethGetBlockByNumber cp j = inr (blk j)) →
  ethGetBlockByNumber cp k = inl err →
  (n < fuel)%nat →
  fetchLoop fuel cp hi i cs
  = Some (Exited
            (withBlocksQueue (blocksQueue cs ++ (blk <$> seqZ i (Z.of_nat n))) cs)).
Proof.
  induction n as [|n IH]; intros fuel cp hi i k cs blk err Hhi Hi Hn Hk Hblk Herr Hfuel;
    (destruct fuel as [|fuel]; [lia|]); simpl;
    (case_eq (i <=? hi); [intros _|rewrite Z.leb_gt; lia]); unfold fetchBlockByNum.
  - replace i with k by lia. rewrite Herr.
    by rewrite app_nil_r, withBlocksQueue_same.
  - rewrite (Hblk i) by lia. unwrap.
    rewrite (IH fuel cp hi (i + 1) k _ blk err) by (auto with lia).
    rewrite withBlocksQueue_twice. simpl.
    by rewrite seqZ_succ, fmap_cons, <- app_assoc.
Qed.

(** A loop that returns has appended the blocks of the heights from [i] to
    [hi], one each and in this order, and touched nothing else. *)
Lemma fetchLoop_returned (fuel : nat) : ∀ cp hi i cs r cs1,
  hi < maxInt64 → minInt64 <= i →
  fetchLoop fuel cp hi i cs = Some (Returned r cs1) →
  r = None ∧
  ∃ q, cs1 = withBlocksQueue (blocksQueue cs ++ q) cs ∧
       holds cp (seqZ i (hi + 1 - i)) q.
Proof.
  induction fuel as [|fuel IH]; intros cp hi i cs r cs1 Hhi Hi; simpl;
    (case_eq (i <=? hi); [rewrite Z.leb_le|rewrite Z.leb_gt]); intros Hle Hrun;
    try discriminate.
  - inversion Hrun; subst. split; [done|]. exists [].
    rewrite app_nil_r, withBlocksQueue_same, seqZ_nil by lia.
    split; [done|constructor].
  - unfold fetchBlockByNum in Hrun.
    destruct (ethGetBlockByNumber cp i) as [e|result] eqn:Hget; [discriminate|].
    revert Hrun. unwrap. intros Hrun.
    apply IH in Hrun as [-> (q & -> & Hq)]; [|lia..].
    split; [done|]. exists (result :: q). simpl.
    rewrite <- app_assoc. split; [done|].
    rewrite seqZ_cons by lia. constructor; [done|].
    by replace (Z.succ i) with (i + 1) by lia;
       replace (Z.pred (hi + 1 - i)) with (hi + 1 - (i + 1)) by lia.
  - inversion Hrun; subst. split; [done|]. exists [].
    rewrite app_nil_r, withBlocksQueue_same, seqZ_nil by lia.
    split; [done|constructor].
Qed.

Lemma holds_length cp ns q : holds cp ns q → length q = length ns.
Proof. intros H. symmetry. by eapply Forall2_length. Qed.

(** ** The test endpoint at work *)

Example Init_scenario_A :
  Init 3 (testChain (inr 100) []) (NewChainSentry "ETH1")
  = Some (Returned None stateA).
Proof. vm_compute. reflexivity. Qed.

Example Refresh_scenario_B :
  catchupOnFinalizedBlocks 2 (testChain (inr 102) []) stateA
  = Some (Returned None (queued 102 [92; 101; 102])).
Proof. vm_compute. reflexivity. Qed.

(** ** The invariant of ready trackers *)

Lemma Ready_invariant cs : Ready cs →
  saneConfig cs ∧ 0 <= latestBlockNum cs < maxInt64 ∧
  length (blocksQueue cs) = Z.to_nat (numFinalBlocks cs).
Proof.
  induction 1 as [fuel cp cs0 cs [Htip Hq] (Hd & Hn & Hsum) Hcp Hrun
                 |fuel cp cs cs' _ (Hcfg & Htip & Hlen) Hcp Hrun].
  - unfold Init, fetchLatestBlockNum in Hrun.
    destruct (ethBlockNumber cp) as [e|h] eqn:Hh; [discriminate|].
    destruct (Hcp h Hh) as [Hh0 Hh1].
    unfold SetLatestBlockNum in Hrun. simpl in Hrun.
    revert Hrun. unwrap. intros Hrun.
    apply fetchLoop_returned in Hrun as [_ (q & -> & Hq')]; [|int64..].
    apply holds_length in Hq'. rewrite length_seqZ in Hq'. simpl.
    repeat split; try done. rewrite Hq. simpl. lia.
  - destruct Hcfg as (Hd & Hn & Hsum).
    unfold catchupOnFinalizedBlocks, fetchLatestBlockNum, GetLatestBlockNum in Hrun.
    destruct (ethBlockNumber cp) as [e|h] eqn:Hh.
    + (* the height fetch failed: the cycle runs on with -1 *)
      destruct (Z.eqb_spec (latestBlockNum cs) (-1)) as [|_]; [lia|].
      simpl in Hrun. revert Hrun. unwrap.
      destruct fuel; simpl;
        (case_eq (latestBlockNum cs + 1 <=? -1); [rewrite Z.leb_le; lia|]);
        intros _; (case_eq (0 <=? -1 - latestBlockNum cs); [rewrite Z.leb_le; lia|]);
        intros _; discriminate.
    + destruct (Hcp h Hh) as [Hh0 Hh1].
      destruct (Z.eqb_spec (latestBlockNum cs) h) as [->|Hne]; simpl in Hrun.
      { by inversion Hrun; subst. }
      destruct (fetchLoop fuel cp h (wrap64 (latestBlockNum cs + 1)) cs)
        as [[r cs1|cs1|cs1]|] eqn:Hloop; try discriminate.
      revert Hloop Hrun. unwrap. intros Hloop.
      apply fetchLoop_returned in Hloop as [_ (q & -> & Hq')]; [|int64..].
      apply holds_length in Hq'. rewrite length_seqZ in Hq'. simpl.
      rewrite length_app.
      destruct (Z.leb_spec 0 (h - latestBlockNum cs)); simpl; [|discriminate].
      destruct (Z.leb_spec (h - latestBlockNum cs)
                  (Z.of_nat (length (blocksQueue cs) + length q)));
        simpl; [|discriminate].
      intros Hrun. inversion Hrun; subst. simpl.
      repeat split; try done. rewrite length_drop, length_app. lia.
Qed.

(** Range conditions on concrete numbers. *)
Ltac concrete :=
  unfold saneConfig, inInt64, minInt64, maxInt64, DEFAULT_NUM_SAVED_BLOCKS,
    DEFAULT_NUM_FINAL_BLOCKS; simpl;
  unfold DEFAULT_NUM_SAVED_BLOCKS, DEFAULT_NUM_FINAL_BLOCKS; lia.

Lemma Ready_stateA : Ready stateA.
Proof.
  apply (Ready_Init 3 (testChain (inr 100) []) (NewChainSentry "ETH1")).
  - by split.
  - concrete.
  - intros h [= <-]. concrete.
  - exact Init_scenario_A.
Qed.

(** ** Initialization *)

(** C7. When the endpoint reports the height [tip0] and serves the blocks
    of the heights [tip0 - finalizedBlockDistance - numFinalBlocks] to
    [tip0 - finalizedBlockDistance - 1], [Init] returns a nil error, has
    appended exactly these blocks to the queue in ascending order of
    height, and has stored [tip0], which [GetLatestBlockNum] then
    returns.  The blocks of other heights play no part: [blk] is only
    constrained on the range. *)
Theorem Init_fetches_finalized_range fuel cp cs tip0 blk :
  saneConfig cs → 0 <= tip0 < maxInt64 →
  ethBlockNumber cp = inr tip0 →
  (∀ n, tip0 - finalizedBlockDistance cs - numFinalBlocks cs <= n
        <= tip0 - finalizedBlockDistance cs - 1 →
        ethGetBlockByNumber cp n = inr (blk n)) →
  (Z.to_nat (numFinalBlocks cs) ≤ fuel)%nat →
  let heights :=
    seqZ (tip0 - finalizedBlockDistance cs - numFinalBlocks cs)
         (numFinalBlocks cs) in
  let cs' :=
    withBlocksQueue (blocksQueue cs ++ (blk <$> heights))
      (withLatestBlockNum tip0 cs) in
  Init fuel cp cs = Some (Returned None cs') ∧
  holds cp heights (blk <$> heights) ∧
  GetLatestBlockNum cs' = tip0.
Proof.
  intros (Hd & Hn & Hsum) Htip Hcp Hblk Hfuel heights cs'.
  split; [|split; [|done]].
  - unfold Init, fetchLatestBlockNum, SetLatestBlockNum. rewrite Hcp. simpl.
    unwrap.
    rewrite (fetchLoop_all_fetched (Z.to_nat (numFinalBlocks cs)) _ _ _ _ _ blk);
      try int64; try done.
    + subst cs' heights. simpl. rewrite Z2Nat.id by lia.
      by replace (tip0 - (finalizedBlockDistance cs + numFinalBlocks cs))
        with (tip0 - finalizedBlockDistance cs - numFinalBlocks cs) by lia.
    + intros k Hk. apply Hblk. lia.
  - unfold holds. apply Forall2_fmap_r, Forall_Forall2_diag.
    apply Forall_seqZ. intros n Hn'. apply Hblk. lia.
Qed.

Lemma Init_fetches_finalized_range_witness :
  Init 3 (testChain (inr 100) []) (NewChainSentry "ETH1")
  = Some (Returned None stateA)
  ∧ GetLatestBlockNum stateA = 100.
Proof.
  destruct (Init_fetches_finalized_range 3 (testChain (inr 100) [])
              (NewChainSentry "ETH1") 100 testBlock) as (Hrun & _ & Hget).
  - concrete.
  - concrete.
  - reflexivity.
  - reflexivity.
  - simpl. unfold DEFAULT_NUM_FINAL_BLOCKS. lia.
  - split; [exact Hrun | exact Hget].
Defined.

(** ** Refresh cycles that succeed *)

(** What a cycle does when the endpoint reports a greater height and serves
    every block above the stored one. *)
Lemma catchup_advances fuel cp cs newTip blk :
  minInt64 <= latestBlockNum cs → latestBlockNum cs < newTip < maxInt64 →
  newTip - latestBlockNum cs <= maxInt64 →
  ethBlockNumber cp = inr newTip →
  (∀ n, latestBlockNum cs < n <= newTip → ethGetBlockByNumber cp n = inr (blk n)) →
  (Z.to_nat (newTip - latestBlockNum cs) ≤ fuel)%nat →
  catchupOnFinalizedBlocks fuel cp cs
  = Some (Returned None
      (withLatestBlockNum newTip
        (withBlocksQueue
          (drop (Z.to_nat (newTip - latestBlockNum cs))
            (blocksQueue cs
             ++ (blk <$> seqZ (latestBlockNum cs + 1) (newTip - latestBlockNum cs))))
          cs))).
Proof.
  intros Hlo Htip Hd Hcp Hblk Hfuel.
  unfold catchupOnFinalizedBlocks, fetchLatestBlockNum, GetLatestBlockNum.
  rewrite Hcp. destruct (Z.eqb_spec (latestBlockNum cs) newTip) as [|_]; [lia|].
  simpl. unwrap.
  rewrite (fetchLoop_all_fetched (Z.to_nat (newTip - latestBlockNum cs))
             _ _ _ _ _ blk); try int64; try done.
  - simpl. rewrite Z2Nat.id by lia.
    rewrite length_app, length_fmap, length_seqZ.
    destruct (Z.leb_spec 0 (newTip - latestBlockNum cs)); [|lia].
    destruct (Z.leb_spec (newTip - latestBlockNum cs)
                (Z.of_nat (length (blocksQueue cs)
                           + Z.to_nat (newTip - latestBlockNum cs)))); [|lia].
    done.
  - intros k Hk. apply Hblk. lia.
Qed.

(** C10. From any state, a cycle that observes a height above the stored
    one and can fetch every block in between returns a nil error; it has
    appended [newTip - tip] blocks and then dropped [newTip - tip] blocks
    from the head, so the queue is as long as before. *)
Theorem catchup_keeps_length fuel cp cs newTip blk :
  minInt64 <= latestBlockNum cs → latestBlockNum cs < newTip < maxInt64 →
  newTip - latestBlockNum cs <= maxInt64 →
  ethBlockNumber cp = inr newTip →
  (∀ n, latestBlockNum cs < n <= newTip → ethGetBlockByNumber cp n = inr (blk n)) →
  (Z.to_nat (newTip - latestBlockNum cs) ≤ fuel)%nat →
  let d := Z.to_nat (newTip - latestBlockNum cs) in
  ∃ cs' fetched,
    catchupOnFinalizedBlocks fuel cp cs = Some (Returned None cs') ∧
    length fetched = d ∧
    blocksQueue cs' = drop d (blocksQueue cs ++ fetched) ∧
    length (blocksQueue cs') = length (blocksQueue cs).
Proof.
  intros Hlo Htip Hd Hcp Hblk Hfuel d.
  eexists _, (blk <$> seqZ (latestBlockNum cs + 1) (newTip - latestBlockNum cs)).
  split; [by apply (catchup_advances fuel cp cs newTip blk)|].
  simpl. rewrite length_drop, length_app, length_fmap, length_seqZ.
  repeat split; try done. lia.
Qed.

Lemma catchup_keeps_length_witness :
  ∃ cs' fetched,
    catchupOnFinalizedBlocks 2 (testChain (inr 102) []) stateA
    = Some (Returned None cs') ∧
    length fetched = 2%nat ∧
    blocksQueue cs' = drop 2 (blocksQueue stateA ++ fetched) ∧
    length (blocksQueue cs') = length (blocksQueue stateA).
Proof.
  apply (catchup_keeps_length 2 (testChain (inr 102) []) stateA 102 testBlock).
  - concrete.
  - concrete.
  - concrete.
  - reflexivity.
  - reflexivity.
  - simpl. lia.
Defined.

(** C3, as the claim has it, fails: the queue of scenario A (height 100,
    distance 7, three final blocks) holds three blocks after [Init], not
    ten. *)
Lemma Init_queue_is_not_capacity :
  Uninitialized (NewChainSentry "ETH1") ∧
  Init 3 (testChain (inr 100) []) (NewChainSentry "ETH1")
  = Some (Returned None stateA) ∧
  Ready stateA ∧
  length (blocksQueue stateA) = 3%nat ∧
  Z.of_nat (length (blocksQueue stateA))
  ≠ finalizedBlockDistance stateA + numFinalBlocks stateA.
Proof.
  split; [by split|]. split; [exact Init_scenario_A|].
  split; [exact Ready_stateA|]. split; [done|]. simpl. lia.
Qed.

(** C3, amended. After every successful [Init] of an uninitialized tracker
    and after every successful refresh cycle, the queue holds exactly
    [numFinalBlocks] blocks. *)
Theorem Ready_queue_length cs :
  Ready cs → Z.of_nat (length (blocksQueue cs)) = numFinalBlocks cs.
Proof.
  intros H. apply Ready_invariant in H as ((_ & Hn & _) & _ & Hlen).
  rewrite Hlen. lia.
Qed.

Lemma Ready_queue_length_witness :
  Z.of_nat (length (blocksQueue stateA)) = numFinalBlocks stateA.
Proof.
  apply Ready_queue_length.
  apply (Ready_Init 3 (testChain (inr 100) []) (NewChainSentry "ETH1")).
  - split; reflexivity.
  - concrete.
  - intros h [= <-]. concrete.
  - vm_compute. reflexivity.
Defined.

(** C6. A cycle that observes the stored height changes nothing and
    returns a nil error, and so does a second such cycle right after it:
    height and queue are the same before and after. *)
Theorem catchup_same_height_noop fuel1 fuel2 cp1 cp2 cs :
  ethBlockNumber cp1 = inr (latestBlockNum cs) →
  ethBlockNumber cp2 = inr (latestBlockNum cs) →
  catchupOnFinalizedBlocks fuel1 cp1 cs = Some (Returned None cs) ∧
  andThen (catchupOnFinalizedBlocks fuel1 cp1 cs)
          (catchupOnFinalizedBlocks fuel2 cp2)
  = Some (Returned None cs).
Proof.
  assert (Hone : ∀ fuel cp, ethBlockNumber cp = inr (latestBlockNum cs) →
            catchupOnFinalizedBlocks fuel cp cs = Some (Returned None cs)).
  { intros fuel cp Hcp. unfold catchupOnFinalizedBlocks, fetchLatestBlockNum.
    by rewrite Hcp, Z.eqb_refl. }
  intros H1 H2. rewrite (Hone fuel1 cp1 H1). split; [done|].
  simpl. by apply Hone.
Qed.

Lemma catchup_same_height_noop_witness :
  catchupOnFinalizedBlocks 0 (testChain (inr 100) []) stateA
  = Some (Returned None stateA) ∧
  andThen (catchupOnFinalizedBlocks 0 (testChain (inr 100) []) stateA)
          (catchupOnFinalizedBlocks 0 (testChain (inr 100) [101]))
  = Some (Returned None stateA).
Proof.
  apply (catchup_same_height_noop 0 0 (testChain (inr 100) [])
           (testChain (inr 100) [101]) stateA); reflexivity.
Defined.

(** ** Reading the final blocks *)

(** The loop of [GetLatestBlockData], from round [i] on, when the queue is
    long enough and no key leaves [int64]: keys [first + i] and up are set
    to the hashes at the queue positions [i] and up. *)
Lemma collectHashes_spec (todo : nat) : ∀ i hashes cs latest,
  inInt64 (latest - finalizedBlockDistance cs) →
  inInt64 (latest - finalizedBlockDistance cs - numFinalBlocks cs) →
  0 <= i →
  latest - finalizedBlockDistance cs - numFinalBlocks cs + i + Z.of_nat todo
    <= maxInt64 + 1 →
  (Z.to_nat i + todo ≤ length (blocksQueue cs))%nat →
  ∃ hashes',
    collectHashes todo i cs latest hashes = Some hashes' ∧
    ∀ k, hashes' !! k =
         if decide (latest - finalizedBlockDistance cs - numFinalBlocks cs + i <= k
                    < latest - finalizedBlockDistance cs - numFinalBlocks cs + i
                      + Z.of_nat todo)
         then hashOf <$>
                (blocksQueue cs
                   !! Z.to_nat (k - (latest - finalizedBlockDistance cs
                                     - numFinalBlocks cs)))
         else hashes !! k.
Proof.
  induction todo as [|todo IH]; intros i hashes cs latest Hd Hfirst Hi Hmax Hlen.
  - exists hashes. split; [done|]. intros k. case_decide; [lia|done].
  - simpl. destruct (lookup_lt_is_Some_2 (blocksQueue cs) (Z.to_nat i))
      as [blk Hblk]; [lia|]. rewrite Hblk. unwrap.
    destruct (IH (i + 1)
                (<[latest - finalizedBlockDistance cs - numFinalBlocks cs + i
                   := hashOf blk]> hashes) cs latest)
      as (hashes' & -> & Hspec); [done|done|lia|lia|lia|].
    exists hashes'. split; [done|]. intros k. rewrite Hspec.
    repeat case_decide; try lia; try done.
    + replace k
        with (latest - finalizedBlockDistance cs - numFinalBlocks cs + i) by lia.
      rewrite lookup_insert_eq.
      replace (latest - finalizedBlockDistance cs - numFinalBlocks cs + i
               - (latest - finalizedBlockDistance cs - numFinalBlocks cs))
        with i by lia.
      by rewrite Hblk.
    + rewrite lookup_insert_ne by lia. done.
Qed.

(** C5. On a ready tracker [GetLatestBlockData] returns, with a nil error,
    the stored height and a map of exactly [numFinalBlocks] entries; its
    keys are exactly the integers from
    [tip - finalizedBlockDistance - numFinalBlocks] to
    [tip - finalizedBlockDistance - 1] for the height [tip] it returns, and
    the key at offset [i] carries the hash of the block at queue
    position [i]. *)
Theorem GetLatestBlockData_final_keys cs :
  Ready cs →
  let tip := latestBlockNum cs in
  let first := tip - finalizedBlockDistance cs - numFinalBlocks cs in
  ∃ hashes : gmap Z value,
    GetLatestBlockData cs = Returned (tip, hashes, None) cs ∧
    size hashes = Z.to_nat (numFinalBlocks cs) ∧
    dom hashes = list_to_set (seqZ first (numFinalBlocks cs)) ∧
    (∀ k, k ∈ dom hashes ↔ first <= k <= tip - finalizedBlockDistance cs - 1) ∧
    (∀ (i : nat) blk, blocksQueue cs !! i = Some blk →
                      hashes !! (first + Z.of_nat i) = Some (hashOf blk)).
Proof.
  intros HR tip first.
  apply Ready_invariant in HR as ((Hd & Hn & Hsum) & Htip & Hlen).
  unfold GetLatestBlockData, GetLatestBlockNum.
  destruct (collectHashes_spec (Z.to_nat (numFinalBlocks cs)) 0 ∅ cs
              (latestBlockNum cs)) as (hashes & -> & Hspec); [int64..|lia|].
  fold tip in Hspec. fold first in Hspec.
  assert (Hdom : ∀ k, k ∈ dom hashes ↔ first <= k < first + numFinalBlocks cs).
  { intros k. rewrite elem_of_dom, Hspec. case_decide as Hk.
    - split; [lia|]. intros _. apply fmap_is_Some.
      apply lookup_lt_is_Some_2. lia.
    - rewrite lookup_empty. split; [by intros []|lia]. }
  assert (Heq : dom hashes = list_to_set (seqZ first (numFinalBlocks cs))).
  { apply set_eq. intros k.
    rewrite Hdom, elem_of_list_to_set, elem_of_seqZ. done. }
  exists hashes. split; [done|]. split; [|split; [done|split]].
  - rewrite <- size_dom, Heq, size_list_to_set by apply NoDup_seqZ.
    apply length_seqZ.
  - intros k. rewrite Hdom. subst first. lia.
  - intros i blk Hblk. rewrite Hspec.
    apply lookup_lt_Some in Hblk as Hi. case_decide; [|lia].
    replace (first + Z.of_nat i - first) with (Z.of_nat i) by lia.
    by rewrite Nat2Z.id, Hblk.
Qed.

Lemma GetLatestBlockData_final_keys_witness :
  ∃ hashes : gmap Z value,
    GetLatestBlockData stateA = Returned (100, hashes, None) stateA ∧
    size hashes = 3%nat ∧
    dom hashes = list_to_set (seqZ 90 3) ∧
    (∀ k, k ∈ dom hashes ↔ 90 <= k <= 92) ∧
    (∀ (i : nat) blk, blocksQueue stateA !! i = Some blk →
                      hashes !! (90 + Z.of_nat i) = Some (hashOf blk)).
Proof.
  apply (GetLatestBlockData_final_keys stateA).
  apply (Ready_Init 3 (testChain (inr 100) []) (NewChainSentry "ETH1")).
  - split; reflexivity.
  - concrete.
  - intros h [= <-]. concrete.
  - vm_compute. reflexivity.
Defined.

(** ** Fetches that fail *)

(** A failed height fetch is logged and nothing more: the cycle of a ready
    tracker goes on with [-1] as the new height and panics on the negative
    slice bound. *)
Lemma catchup_height_fetch_failure fuel cp cs err :
  Ready cs → ethBlockNumber cp = inl err →
  catchupOnFinalizedBlocks fuel cp cs = Some (Panicked cs).
Proof.
  intros HR Hcp. apply Ready_invariant in HR as (_ & Htip & _).
  unfold catchupOnFinalizedBlocks, fetchLatestBlockNum, GetLatestBlockNum.
  rewrite Hcp. destruct (Z.eqb_spec (latestBlockNum cs) (-1)) as [|_]; [lia|].
  simpl. unwrap.
  destruct fuel; simpl;
    (case_eq (latestBlockNum cs + 1 <=? -1); [rewrite Z.leb_le; lia|]);
    intros _; (case_eq (0 <=? -1 - latestBlockNum cs); [rewrite Z.leb_le; lia|]);
    done.
Qed.

(** C1, as the claim has it, fails. From scenario A the endpoint reports
    height 102 and serves block 101 but not block 102: the cycle does not
    return an error, it ends the process, and block 101 is in the queue by
    then. *)
Lemma catchup_failure_keeps_appended_blocks :
  Ready stateA ∧
  ethGetBlockByNumber (testChain (inr 102) [102]) 102 = inl ErrSend ∧
  catchupOnFinalizedBlocks 2 (testChain (inr 102) [102]) stateA
  = Some (Exited (queued 100 [90; 91; 92; 101])) ∧
  blocksQueue (queued 100 [90; 91; 92; 101]) ≠ blocksQueue stateA ∧
  ∀ fuel r cs',
    catchupOnFinalizedBlocks fuel (testChain (inr 102) [102]) stateA
    ≠ Some (Returned r cs').
Proof.
  split; [exact Ready_stateA|]. split; [done|].
  split; [vm_compute; reflexivity|]. split.
  - intros H. apply (f_equal length) in H. discriminate H.
  - intros [|[|fuel]] r cs'; vm_compute; discriminate.
Qed.

(** C1, amended. When the height fetch of a cycle on a ready tracker
    succeeds with a greater height and block [k] is the first block that
    cannot be fetched, the cycle ends the process at that fetch and returns
    nothing. By then the stored height is unchanged, nothing has been
    dropped from the queue, and the blocks above the stored height and
    below [k] have been appended (none when [k] is the first one fetched). *)
Theorem catchup_block_failure_exits fuel cp cs newTip k blk err :
  Ready cs →
  ethBlockNumber cp = inr newTip → newTip < maxInt64 →
  latestBlockNum cs < k <= newTip →
  (∀ n, latestBlockNum cs < n < k → ethGetBlockByNumber cp n = inr (blk n)) →
  ethGetBlockByNumber cp k = inl err →
  (Z.to_nat (k - latestBlockNum cs) ≤ fuel)%nat →
  ∃ cs1,
    catchupOnFinalizedBlocks fuel cp cs = Some (Exited cs1) ∧
    latestBlockNum cs1 = latestBlockNum cs ∧
    blocksQueue cs1
    = blocksQueue cs
      ++ (blk <$> seqZ (latestBlockNum cs + 1) (k - latestBlockNum cs - 1)).
Proof.
  intros HR Hcp Hmax Hk Hblk Herr Hfuel.
  apply Ready_invariant in HR as (_ & Htip & _).
  unfold catchupOnFinalizedBlocks, fetchLatestBlockNum, GetLatestBlockNum.
  rewrite Hcp. destruct (Z.eqb_spec (latestBlockNum cs) newTip) as [|_]; [lia|].
  simpl. unwrap.
  rewrite (fetchLoop_first_failure (Z.to_nat (k - latestBlockNum cs - 1))
             _ _ _ _ k _ blk err); try int64; try done.
  - eexists. split; [done|]. simpl. split; [done|].
    by rewrite Z2Nat.id by lia.
  - intros j Hj. apply Hblk. lia.
Qed.

Lemma catchup_block_failure_exits_witness :
  ∃ cs1,
    catchupOnFinalizedBlocks 2 (testChain (inr 102) [102]) stateA
    = Some (Exited cs1) ∧
    latestBlockNum cs1 = 100 ∧
    blocksQueue cs1 = blocksQueue stateA ++ (testBlock <$> seqZ 101 1).
Proof.
  apply (catchup_block_failure_exits 2 (testChain (inr 102) [102]) stateA
           102 102 testBlock ErrSend).
  - apply (Ready_Init 3 (testChain (inr 100) []) (NewChainSentry "ETH1")).
    + split; reflexivity.
    + concrete.
    + intros h [= <-]. concrete.
    + vm_compute. reflexivity.
  - reflexivity.
  - concrete.
  - simpl. lia.
  - intros n Hn. simpl in Hn. replace n with 101 by lia. reflexivity.
  - reflexivity.
  - simpl. lia.
Defined.

(** C4, as the claim has it, fails. [Init] of a fresh tracker against an
    endpoint at height 100 that serves block 90 but not block 91 returns no
    error: it ends the process, with the height already stored and block 90
    already queued. *)
Lemma Init_failure_keeps_height_and_blocks :
  Uninitialized (NewChainSentry "ETH1") ∧
  ethGetBlockByNumber (testChain (inr 100) [91]) 91 = inl ErrSend ∧
  Init 3 (testChain (inr 100) [91]) (NewChainSentry "ETH1")
  = Some (Exited (queued 100 [90])) ∧
  ¬ Uninitialized (queued 100 [90]) ∧
  ∀ fuel r cs',
    Init fuel (testChain (inr 100) [91]) (NewChainSentry "ETH1")
    ≠ Some (Returned r cs').
Proof.
  split; [by split|]. split; [done|]. split; [vm_compute; reflexivity|]. split.
  - intros [H _]. discriminate H.
  - intros [|[|fuel]] r cs'; vm_compute; discriminate.
Qed.

(** C4, amended. [Init] does not return when a fetch fails: it ends the
    process at the first fetch that fails. When that is the height fetch,
    the state is untouched. When it is the fetch of block [k], the reported
    height has been stored and the blocks of the range below [k] have been
    appended by then. *)
Theorem Init_failure_exits fuel cp cs :
  saneConfig cs →
  (∀ err, ethBlockNumber cp = inl err → Init fuel cp cs = Some (Exited cs)) ∧
  (∀ tip0 k blk err,
     let first := tip0 - finalizedBlockDistance cs - numFinalBlocks cs in
     0 <= tip0 < maxInt64 → ethBlockNumber cp = inr tip0 →
     first <= k <= tip0 - finalizedBlockDistance cs - 1 →
     (∀ n, first <= n < k → ethGetBlockByNumber cp n = inr (blk n)) →
     ethGetBlockByNumber cp k = inl err →
     (Z.to_nat (k - first) < fuel)%nat →
     Init fuel cp cs
     = Some (Exited
               (withBlocksQueue (blocksQueue cs ++ (blk <$> seqZ first (k - first)))
                  (withLatestBlockNum tip0 cs)))).
Proof.
  intros (Hd & Hn & Hsum). split.
  - intros err Hcp. unfold Init, fetchLatestBlockNum. by rewrite Hcp.
  - intros tip0 k blk err first Htip Hcp Hk Hblk Herr Hfuel. subst first.
    unfold Init, fetchLatestBlockNum, SetLatestBlockNum. rewrite Hcp. simpl.
    unwrap.
    replace (tip0 - (finalizedBlockDistance cs + numFinalBlocks cs))
      with (tip0 - finalizedBlockDistance cs - numFinalBlocks cs) by lia.
    rewrite (fetchLoop_first_failure
               (Z.to_nat (k - (tip0 - finalizedBlockDistance cs - numFinalBlocks cs)))
               _ _ _ _ k _ blk err); try int64; try done.
    simpl. by rewrite Z2Nat.id by lia.
Qed.

Lemma Init_failure_exits_witness :
  Init 0 (testChain (inl ErrSend) []) (NewChainSentry "ETH1")
  = Some (Exited (NewChainSentry "ETH1")) ∧
  Init 3 (testChain (inr 100) [91]) (NewChainSentry "ETH1")
  = Some (Exited (queued 100 [90])).
Proof.
  split.
  - apply (Init_failure_exits 0 (testChain (inl ErrSend) [])
             (NewChainSentry "ETH1")) with (err := ErrSend);
      [concrete|reflexivity].
  - apply (Init_failure_exits 3 (testChain (inr 100) [91])
             (NewChainSentry "ETH1")) with (tip0 := 100) (k := 91)
             (blk := testBlock) (err := ErrSend).
    + concrete.
    + concrete.
    + reflexivity.
    + simpl. unfold DEFAULT_NUM_SAVED_BLOCKS, DEFAULT_NUM_FINAL_BLOCKS. lia.
    + intros n Hn. simpl in Hn.
      unfold DEFAULT_NUM_SAVED_BLOCKS, DEFAULT_NUM_FINAL_BLOCKS in Hn.
      replace n with 90 by lia. reflexivity.
    + reflexivity.
    + simpl. unfold DEFAULT_NUM_SAVED_BLOCKS, DEFAULT_NUM_FINAL_BLOCKS. lia.
Defined.

(** ** A height that goes down *)

(** C9, as the claim has it, fails. From scenario A the endpoint reports
    height 98: the cycle returns no error, it panics on the slice bound
    [98 - 100]. *)
Lemma catchup_lower_height_returns_no_error :
  Ready stateA ∧
  catchupOnFinalizedBlocks 0 (testChain (inr 98) []) stateA
  = Some (Panicked stateA) ∧
  ∀ fuel r cs',
    catchupOnFinalizedBlocks fuel (testChain (inr 98) []) stateA
    ≠ Some (Returned r cs').
Proof.
  split; [exact Ready_stateA|]. split; [vm_compute; reflexivity|].
  intros [|fuel] r cs'; vm_compute; discriminate.
Qed.

(** C9, amended. A cycle on a ready tracker that observes a height below
    the stored one fetches no block and panics on the negative slice
    bound; it returns nothing, and height and queue are untouched when it
    panics. *)
Theorem catchup_lower_height_panics fuel cp cs newTip :
  Ready cs →
  ethBlockNumber cp = inr newTip → 0 <= newTip < latestBlockNum cs →
  catchupOnFinalizedBlocks fuel cp cs = Some (Panicked cs).
Proof.
  intros HR Hcp Hlow. apply Ready_invariant in HR as (_ & Htip & _).
  unfold catchupOnFinalizedBlocks, fetchLatestBlockNum, GetLatestBlockNum.
  rewrite Hcp. destruct (Z.eqb_spec (latestBlockNum cs) newTip) as [|_]; [lia|].
  simpl. unwrap.
  destruct fuel; simpl;
    (case_eq (latestBlockNum cs + 1 <=? newTip); [rewrite Z.leb_le; lia|]);
    intros _;
    (case_eq (0 <=? newTip - latestBlockNum cs); [rewrite Z.leb_le; lia|]);
    done.
Qed.

Lemma catchup_lower_height_panics_witness :
  catchupOnFinalizedBlocks 0 (testChain (inr 98) []) stateA
  = Some (Panicked stateA).
Proof.
  apply (catchup_lower_height_panics 0 (testChain (inr 98) []) stateA 98).
  - apply (Ready_Init 3 (testChain (inr 100) []) (NewChainSentry "ETH1")).
    + split; reflexivity.
    + concrete.
    + intros h [= <-]. concrete.
    + vm_compute. reflexivity.
  - reflexivity.
  - simpl. lia.
Defined.

(** ** Reading before initialization *)

(** C8, as the claim has it, fails. On the tracker that [NewChainSentry]
    builds, [GetLatestBlockNum] returns the zero height, and
    [GetLatestBlockData] returns no error: it panics on the empty queue. *)
Lemma reads_before_Init_give_no_error :
  Uninitialized (NewChainSentry "ETH1") ∧
  GetLatestBlockNum (NewChainSentry "ETH1") = 0 ∧
  GetLatestBlockData (NewChainSentry "ETH1") = Panicked (NewChainSentry "ETH1") ∧
  ∀ r cs', GetLatestBlockData (NewChainSentry "ETH1") ≠ Returned r cs'.
Proof.
  split; [by split|]. split; [done|]. split; [done|]. intros r cs'. discriminate.
Qed.

(** C8, amended. On an uninitialized tracker [GetLatestBlockNum], which has
    no error result, returns [0]; [GetLatestBlockData] never returns an
    error: with no final block to report it returns height [0] and an
    empty map with a nil error, and otherwise it does not return but
    panics on the index into the empty queue. *)
Theorem reads_when_Uninitialized cs :
  Uninitialized cs →
  GetLatestBlockNum cs = 0 ∧
  (numFinalBlocks cs <= 0 → GetLatestBlockData cs = Returned (0, ∅, None) cs) ∧
  (0 < numFinalBlocks cs → GetLatestBlockData cs = Panicked cs) ∧
  (∀ tip hashes err cs',
     GetLatestBlockData cs = Returned (tip, hashes, err) cs' → err = None).
Proof.
  intros [Htip Hq]. unfold GetLatestBlockData, GetLatestBlockNum.
  rewrite Htip. split; [done|]. split; [|split].
  - intros Hn. by rewrite Z2Nat.nonpos.
  - intros Hn. destruct (Z.to_nat (numFinalBlocks cs)) eqn:Hto; [lia|].
    simpl. by rewrite Hq.
  - intros tip hashes err cs'.
    destruct (collectHashes _ _ _ _ _); [|discriminate]. by intros [= <- <- <- <-].
Qed.

Lemma reads_when_Uninitialized_witness :
  GetLatestBlockNum (NewChainSentry "ETH1") = 0 ∧
  GetLatestBlockData (NewChainSentry "ETH1") = Panicked (NewChainSentry "ETH1").
Proof.
  destruct (reads_when_Uninitialized (NewChainSentry "ETH1"))
    as (Hnum & _ & Hdata & _).
  - split; reflexivity.
  - split; [exact Hnum|]. apply Hdata. reflexivity.
Defined.

(** ** The queue after a refresh *)

Lemma testBlock_inj a b : testBlock a = testBlock b → a = b.
Proof.
  unfold testBlock. intros H.
  apply (inj2 (singletonM (M:=gmap string value))) in H as [_ H].
  injection H as H. by apply (inj pretty).
Qed.

(** X11. In general: after a cycle that advanced a non-empty queue, the
    last block of the queue is the block of the new height itself, not the
    block [finalizedBlockDistance + 1] below it. *)
Lemma catchup_last_block fuel cp cs newTip blk :
  minInt64 <= latestBlockNum cs → latestBlockNum cs < newTip < maxInt64 →
  newTip - latestBlockNum cs <= maxInt64 →
  ethBlockNumber cp = inr newTip →
  (∀ n, latestBlockNum cs < n <= newTip → ethGetBlockByNumber cp n = inr (blk n)) →
  (Z.to_nat (newTip - latestBlockNum cs) ≤ fuel)%nat →
  blocksQueue cs ≠ [] →
  ∃ cs', catchupOnFinalizedBlocks fuel cp cs = Some (Returned None cs') ∧
         latestBlockNum cs' = newTip ∧
         last (blocksQueue cs') = Some (blk newTip).
Proof.
  intros Hlo Htip Hd Hcp Hblk Hfuel Hq.
  eexists. split; [by apply (catchup_advances fuel cp cs newTip blk)|].
  simpl. split; [done|].
  assert (0 < length (blocksQueue cs))%nat
    by (destruct (blocksQueue cs); simpl; [done|lia]).
  rewrite last_lookup, length_drop, length_app, length_fmap, length_seqZ.
  rewrite lookup_drop, lookup_app_r by lia.
  rewrite list_lookup_fmap, lookup_seqZ_lt by lia. simpl. f_equal. f_equal. lia.
Qed.

(** C2: the refresh breaks what [Init] sets up. From scenario A (height
    100, the queue holding the heights 90 to 92) a cycle that observes
    height 102 fetches the heights 101 and 102, above the stored height,
    and returns with the queue holding the heights 92, 101 and 102.  The
    queue holds no run of three adjacent heights, so not the heights 92 to
    94 that end at [102 - 7 - 1]. *)
Theorem catchup_queue_not_contiguous :
  Ready stateA ∧
  holds (testChain (inr 100) []) (seqZ 90 3) (blocksQueue stateA) ∧
  catchupOnFinalizedBlocks 2 (testChain (inr 102) []) stateA
  = Some (Returned None (queued 102 [92; 101; 102])) ∧
  holds (testChain (inr 102) []) [92; 101; 102]
    (blocksQueue (queued 102 [92; 101; 102])) ∧
  ∀ first, ¬ holds (testChain (inr 102) []) (seqZ first 3)
               (blocksQueue (queued 102 [92; 101; 102])).
Proof.
  split; [exact Ready_stateA|].
  split; [by repeat constructor|].
  split; [exact Refresh_scenario_B|].
  split; [by repeat constructor|].
  intros first H. unfold holds, queued in H.
  rewrite (seqZ_cons first), (seqZ_cons (Z.succ first)) in H by lia.
  cbn [blocksQueue fmap list_fmap] in H.
  apply Forall2_cons in H as [H0 H]. apply Forall2_cons in H as [H1 _].
  unfold served, testChain in H0, H1. cbn [ethGetBlockByNumber] in H0, H1.
  rewrite decide_False in H0 by apply not_elem_of_nil.
  rewrite decide_False in H1 by apply not_elem_of_nil.
  assert (E0 : testBlock first = testBlock 92) by congruence.
  assert (E1 : testBlock (Z.succ first) = testBlock 101) by congruence.
  apply testBlock_inj in E0, E1. lia.
Qed.

(** * Further properties of the tracker *)

(** ** Bounds of the read *)

Lemma collectHashes_None (todo : nat) : ∀ i hashes cs latest,
  0 <= i → (Z.to_nat i ≤ length (blocksQueue cs))%nat →
  collectHashes todo i cs latest hashes = None
  ↔ (length (blocksQueue cs) < Z.to_nat i + todo)%nat.
Proof.
  induction todo as [|todo IH]; intros i hashes cs latest Hi Hlen; simpl.
  - split; [done|lia].
  - destruct (blocksQueue cs !! Z.to_nat i) as [blk|] eqn:Hblk.
    + apply lookup_lt_Some in Hblk. rewrite IH by lia. lia.
    + apply lookup_ge_None in Hblk. split; [lia|done].
Qed.

(** X1. [GetLatestBlockData] panics exactly when the queue holds fewer
    blocks than [numFinalBlocks]; in every other state it returns the
    stored height with a nil error.  Either way it leaves the tracker as it
    found it. *)
Theorem GetLatestBlockData_panics_iff cs :
  (GetLatestBlockData cs = Panicked cs
   ↔ Z.of_nat (length (blocksQueue cs)) < numFinalBlocks cs) ∧
  ((∃ hashes, GetLatestBlockData cs = Returned (latestBlockNum cs, hashes, None) cs)
   ↔ numFinalBlocks cs <= Z.of_nat (length (blocksQueue cs))) ∧
  stateOf (GetLatestBlockData cs) = cs.
Proof.
  unfold GetLatestBlockData, GetLatestBlockNum.
  pose proof (collectHashes_None (Z.to_nat (numFinalBlocks cs)) 0 ∅ cs
                (latestBlockNum cs)) as Hnone.
  destruct (collectHashes _ _ _ _ _) as [hashes|].
  - split; [|split; [|done]].
    + split; [done|]. intros Hlt.
      assert (Some hashes = None) as [=]. apply Hnone; simpl; lia.
    + split; [|by exists hashes]. intros _.
      destruct (Z.le_gt_cases (numFinalBlocks cs)
                  (Z.of_nat (length (blocksQueue cs)))) as [|Hgt]; [done|].
      assert (Some hashes = None) as [=]. apply Hnone; simpl; lia.
  - assert (Hlt : (length (blocksQueue cs)
                   < Z.to_nat 0 + Z.to_nat (numFinalBlocks cs))%nat)
      by (apply Hnone; [lia|simpl; lia|done]).
    split; [|split; [|done]].
    + split; [intros _; lia|done].
    + split; [by intros [h [=]]|lia].
Qed.

(** ** What a call leaves alone *)

(** However the fetch loop ends, it has only appended to the queue. *)
Lemma fetchLoop_frame (fuel : nat) : ∀ cp hi i cs o,
  fetchLoop fuel cp hi i cs = Some o →
  ∃ q, stateOf o = withBlocksQueue (blocksQueue cs ++ q) cs ∧
       (∀ r cs', o = Returned r cs' → r = None).
Proof.
  induction fuel as [|fuel IH]; intros cp hi i cs o; simpl;
    destruct (i <=? hi); try discriminate.
  - intros [= <-]. exists []. rewrite app_nil_r, withBlocksQueue_same.
    split; [done|]. by intros r cs' [= <- _].
  - destruct (fetchBlockByNum cp i) as [[result [e|]]|].
    + intros [= <-]. exists []. by rewrite app_nil_r, withBlocksQueue_same.
    + intros Hrun. apply IH in Hrun as (q & -> & Hr).
      exists (result :: q). simpl. by rewrite <- app_assoc.
    + intros [= <-]. exists []. by rewrite app_nil_r, withBlocksQueue_same.
  - intros [= <-]. exists []. rewrite app_nil_r, withBlocksQueue_same.
    split; [done|]. by intros r cs' [= <- _].
Qed.

(** X2. However [Init] ends, by return or by process exit, it has not
    touched the configuration, it has removed no block (the queue it found
    is a prefix of the queue it leaves), and the stored height is either
    untouched or the height the endpoint reported.  When it returns, the
    error it returns is nil. *)
Theorem Init_only_appends fuel cp cs o :
  Init fuel cp cs = Some o →
  sameConfig cs (stateOf o) ∧
  blocksQueue cs `prefix_of` blocksQueue (stateOf o) ∧
  (latestBlockNum (stateOf o) = latestBlockNum cs
   ∨ ethBlockNumber cp = inr (latestBlockNum (stateOf o))) ∧
  (∀ r cs', o = Returned r cs' → r = None) ∧
  (∀ cs', o ≠ Panicked cs').
Proof.
  unfold Init, fetchLatestBlockNum.
  destruct (ethBlockNumber cp) as [e|h].
  - intros [= <-]. simpl. repeat split; try done. by left.
  - intros Hrun. apply fetchLoop_frame in Hrun as Hframe.
    destruct Hframe as (q & Hstate & Hr). rewrite Hstate. simpl.
    repeat split; try done.
    + by exists q.
    + by right.
    + intros cs' ->. simpl in Hstate.
      clear Hr. revert Hrun.
      generalize (wrap64 (wrap64 (h - finalizedBlockDistance
                                        (SetLatestBlockNum h cs)) - 1)).
      generalize (wrap64 (h - wrap64 (finalizedBlockDistance
                                        (SetLatestBlockNum h cs)
                                      + numFinalBlocks (SetLatestBlockNum h cs)))).
      generalize (SetLatestBlockNum h cs). clear.
      induction fuel as [|fuel IH]; intros cs i hi; simpl;
        destruct (i <=? hi); try discriminate.
      destruct (fetchBlockByNum cp i) as [[result [e|]]|]; try discriminate.
      apply IH.
Qed.

Lemma Init_only_appends_witness :
  sameConfig (NewChainSentry "ETH1") (queued 100 [90]) ∧
  blocksQueue (NewChainSentry "ETH1") `prefix_of` blocksQueue (queued 100 [90]).
Proof.
  destruct (Init_only_appends 3 (testChain (inr 100) [91])
              (NewChainSentry "ETH1") (Exited (queued 100 [90])))
    as (Hcfg & Hpre & _).
  - vm_compute. reflexivity.
  - split; [exact Hcfg | exact Hpre].
Defined.

(** X3. However a refresh cycle ends, it has not touched the
    configuration, and the error it returns, when it returns, is nil.  A
    cycle that ends the process or panics has by then neither changed the
    stored height nor removed a block. *)
Theorem catchup_frame fuel cp cs o :
  catchupOnFinalizedBlocks fuel cp cs = Some o →
  sameConfig cs (stateOf o) ∧
  (∀ r cs', o = Returned r cs' → r = None) ∧
  (∀ cs1, o = Exited cs1 ∨ o = Panicked cs1 →
          latestBlockNum cs1 = latestBlockNum cs ∧
          blocksQueue cs `prefix_of` blocksQueue cs1).
Proof.
  unfold catchupOnFinalizedBlocks.
  destruct (fetchLatestBlockNum cp) as [latestBlock err].
  assert (Hend : ∀ q,
    let cs1 := withBlocksQueue (blocksQueue cs ++ q) cs in
    (o = Exited cs1 ∨ o = Panicked cs1
     ∨ o = Returned None
            (withLatestBlockNum latestBlock
               (withBlocksQueue
                  (drop (Z.to_nat (wrap64 (latestBlock - GetLatestBlockNum cs)))
                     (blocksQueue cs1)) cs1))) →
    sameConfig cs (stateOf o) ∧
    (∀ r cs', o = Returned r cs' → r = None) ∧
    (∀ cs2, o = Exited cs2 ∨ o = Panicked cs2 →
            latestBlockNum cs2 = latestBlockNum cs ∧
            blocksQueue cs `prefix_of` blocksQueue cs2)).
  { intros q cs1 [->|[->| ->]]; simpl; (split; [done|split]);
      try (intros r cs' [=]; by subst); try (by intros r cs' [=]);
      intros cs2 [[=]|[=]]; subst; simpl; (split; [done|by exists q]). }
  destruct (negb (latestBlockNum cs =? latestBlock)).
  - destruct (fetchLoop fuel cp latestBlock _ cs) as [o1|] eqn:Hloop;
      [|discriminate].
    apply fetchLoop_frame in Hloop as (q & Hstate & _).
    destruct o1 as [r1 cs1|cs1|cs1]; simpl in Hstate; subst cs1.
    + destruct (_ && _); intros [= <-]; apply (Hend q); auto.
    + intros [= <-]. apply (Hend q); auto.
    + intros [= <-]. apply (Hend q); auto.
  - intros [= <-]. simpl. split; [done|]. split.
    + by intros r cs' [= <- _].
    + by intros cs1 [[=]|[=]].
Qed.

Lemma catchup_frame_witness :
  latestBlockNum (queued 100 [90; 91; 92; 101]) = latestBlockNum stateA ∧
  blocksQueue stateA `prefix_of` blocksQueue (queued 100 [90; 91; 92; 101]).
Proof.
  destruct (catchup_frame 2 (testChain (inr 102) [102]) stateA
              (Exited (queued 100 [90; 91; 92; 101]))) as (_ & _ & Hstop).
  - vm_compute. reflexivity.
  - apply Hstop. left. reflexivity.
Defined.

(** ** Cycles that return *)

(** A cycle that returns, run from a stored height in the range of block
    heights: the endpoint reported a height [h] not below the stored one,
    the blocks above the stored height up to [h] were fetched and appended,
    and as many blocks were dropped from the head. *)
Lemma catchup_returned fuel cp cs r cs' :
  0 <= latestBlockNum cs < maxInt64 → reportsHeight cp →
  catchupOnFinalizedBlocks fuel cp cs = Some (Returned r cs') →
  r = None ∧
  ∃ h q,
    ethBlockNumber cp = inr h ∧ latestBlockNum cs <= h ∧
    holds cp (seqZ (latestBlockNum cs + 1) (h - latestBlockNum cs)) q ∧
    cs' = withLatestBlockNum h
            (withBlocksQueue
               (drop (Z.to_nat (h - latestBlockNum cs)) (blocksQueue cs ++ q)) cs).
Proof.
  intros Htip Hcp.
  unfold catchupOnFinalizedBlocks, fetchLatestBlockNum, GetLatestBlockNum.
  destruct (ethBlockNumber cp) as [e|h] eqn:Hh.
  - destruct (Z.eqb_spec (latestBlockNum cs) (-1)) as [|_]; [lia|].
    simpl. unwrap.
    destruct fuel; simpl;
      (case_eq (latestBlockNum cs + 1 <=? -1); [rewrite Z.leb_le; lia|]);
      intros _; (case_eq (0 <=? -1 - latestBlockNum cs); [rewrite Z.leb_le; lia|]);
      intros _; discriminate.
  - destruct (Hcp h Hh) as [Hh0 Hh1].
    destruct (Z.eqb_spec (latestBlockNum cs) h) as [<-|Hne]; simpl.
    + intros [= <- <-]. split; [done|]. exists (latestBlockNum cs), [].
      rewrite Z.sub_diag, app_nil_r. repeat split; try done; try lia.
      * constructor.
      * by destruct cs.
    + destruct (fetchLoop fuel cp h (wrap64 (latestBlockNum cs + 1)) cs)
        as [[r1 cs1|cs1|cs1]|] eqn:Hloop; try discriminate.
      revert Hloop. unwrap. intros Hloop.
      apply fetchLoop_returned in Hloop as [_ (q & -> & Hq)]; [|int64..].
      simpl.
      destruct (Z.leb_spec 0 (h - latestBlockNum cs)); simpl; [|discriminate].
      destruct (_ <=? _); simpl; [|discriminate].
      intros [= <- <-]. split; [done|]. exists h, q.
      replace (h + 1 - (latestBlockNum cs + 1)) with (h - latestBlockNum cs)
        in Hq by lia.
      repeat split; try done. lia.
Qed.

(** X4. A cycle on a ready tracker that returns has stored exactly the
    height the endpoint reported, and that height is not below the one
    stored before: the stored height never goes down.  The queue it leaves
    is the queue it found, followed by the blocks the endpoint serves for
    the heights above the old one up to the new one, less as many blocks at
    the head. *)
Theorem catchup_returned_height fuel cp cs r cs' :
  Ready cs → reportsHeight cp →
  catchupOnFinalizedBlocks fuel cp cs = Some (Returned r cs') →
  ethBlockNumber cp = inr (latestBlockNum cs') ∧
  latestBlockNum cs <= latestBlockNum cs' ∧
  ∃ fetched,
    holds cp (seqZ (latestBlockNum cs + 1) (latestBlockNum cs' - latestBlockNum cs))
      fetched ∧
    blocksQueue cs'
    = drop (Z.to_nat (latestBlockNum cs' - latestBlockNum cs))
        (blocksQueue cs ++ fetched).
Proof.
  intros HR Hcp Hrun. apply Ready_invariant in HR as (_ & Htip & _).
  apply catchup_returned in Hrun as (_ & h & q & Hh & Hle & Hq & ->); [|done..].
  simpl. repeat split; try done. by exists q.
Qed.

Lemma catchup_returned_height_witness :
  ethBlockNumber (testChain (inr 102) []) = inr 102 ∧ 100 <= 102.
Proof.
  destruct (catchup_returned_height 2 (testChain (inr 102) []) stateA None
              (queued 102 [92; 101; 102])) as (Hh & Hle & _).
  - apply (Ready_Init 3 (testChain (inr 100) []) (NewChainSentry "ETH1")).
    + split; reflexivity.
    + concrete.
    + intros h [= <-]. concrete.
    + vm_compute. reflexivity.
  - intros h [= <-]. concrete.
  - vm_compute. reflexivity.
  - split; [exact Hh | exact Hle].
Defined.

(** ** The poller *)

(** X5. Ticks of the poller on a ready tracker: when the goroutine has run
    the cycles of all the ticks and waits for the next one, the tracker is
    ready, with the same configuration, the stored height is not below the
    one it started from, and it is the height reported at the last tick. *)
Theorem StartPoller_keeps_Ready fuel ticks : ∀ cs cs',
  Ready cs → Forall reportsHeight ticks →
  StartPoller fuel ticks cs = Some (Returned tt cs') →
  Ready cs' ∧ sameConfig cs cs' ∧
  latestBlockNum cs <= latestBlockNum cs' ∧
  (∀ cp, last ticks = Some cp → ethBlockNumber cp = inr (latestBlockNum cs')).
Proof.
  induction ticks as [|cp later IH]; intros cs cs' HR Hticks; simpl.
  - intros [= <-]. repeat split; try done; lia.
  - apply Forall_cons in Hticks as [Hcp Hlater].
    destruct (catchupOnFinalizedBlocks fuel cp cs) as [[r cs1|cs1|cs1]|] eqn:Hrun;
      simpl; try discriminate.
    intros Hrest.
    pose proof (Ready_invariant cs HR) as (_ & Htip & _).
    pose proof (catchup_returned _ _ _ _ _ Htip Hcp Hrun)
      as (Hr & h & q & Hh & Hle & _ & Hcs1).
    assert (HR1 : Ready cs1).
    { apply (Ready_Refresh fuel cp cs cs1 HR Hcp). by rewrite Hr in Hrun. }
    destruct (IH cs1 cs' HR1 Hlater Hrest) as (HR' & Hcfg & Hle' & Hlast).
    assert (Hcfg1 : sameConfig cs cs1) by (by subst cs1).
    assert (Hh1 : latestBlockNum cs1 = h) by (by subst cs1).
    split; [done|]. split; [|split].
    + destruct Hcfg as (E1 & E2 & E3), Hcfg1 as (F1 & F2 & F3).
      unfold sameConfig. by rewrite E1, E2, E3.
    + lia.
    + intros cp'. destruct later as [|cp2 later'].
      * simpl. intros [= <-]. simpl in Hrest. injection Hrest as <-.
        by rewrite Hh1.
      * intros Hl. apply Hlast. exact Hl.
Qed.

Lemma advancedTo_same blk cs : advancedTo (latestBlockNum cs) blk cs = cs.
Proof.
  unfold advancedTo. rewrite !Z.sub_diag, seqZ_nil by lia. simpl.
  rewrite app_nil_r. by destruct cs.
Qed.

Lemma catchup_advancedTo fuel cp cs newTip blk :
  minInt64 <= latestBlockNum cs → latestBlockNum cs <= newTip < maxInt64 →
  newTip - latestBlockNum cs <= maxInt64 →
  ethBlockNumber cp = inr newTip →
  (∀ n, latestBlockNum cs < n <= newTip → ethGetBlockByNumber cp n = inr (blk n)) →
  (Z.to_nat (newTip - latestBlockNum cs) ≤ fuel)%nat →
  catchupOnFinalizedBlocks fuel cp cs
  = Some (Returned None (advancedTo newTip blk cs)).
Proof.
  intros Hlo Htip Hd Hcp Hblk Hfuel.
  destruct (decide (latestBlockNum cs = newTip)) as [<-|Hne].
  - unfold catchupOnFinalizedBlocks, fetchLatestBlockNum.
    by rewrite Hcp, Z.eqb_refl, advancedTo_same.
  - apply catchup_advances; try done. lia.
Qed.

(** Advancing in two steps is advancing in one. *)
Lemma advancedTo_twice t1 t2 blk cs :
  latestBlockNum cs <= t1 <= t2 →
  advancedTo t2 blk (advancedTo t1 blk cs) = advancedTo t2 blk cs.
Proof.
  intros Ht. unfold advancedTo, withLatestBlockNum, withBlocksQueue. simpl.
  f_equal.
  replace (t2 - latestBlockNum cs)
    with ((t1 - latestBlockNum cs) + (t2 - t1)) by lia.
  rewrite seqZ_app, fmap_app, Z2Nat.inj_add by lia.
  replace (latestBlockNum cs + 1 + (t1 - latestBlockNum cs)) with (t1 + 1) by lia.
  rewrite (app_assoc (blocksQueue cs)), <- drop_drop.
  rewrite (drop_app_le (blocksQueue cs ++ _)); [done|].
  rewrite length_app, length_fmap, length_seqZ. lia.
Qed.

(** The poller over ticks whose reported heights never go down. *)
Lemma StartPoller_advancedTo fuel blk ticks : ∀ hs cs hn,
  minInt64 <= latestBlockNum cs →
  Forall2 (λ cp h, ethBlockNumber cp = inr h) ticks hs →
  StronglySorted Z.le (latestBlockNum cs :: hs) →
  last (latestBlockNum cs :: hs) = Some hn →
  hn < maxInt64 → hn - latestBlockNum cs <= maxInt64 →
  Forall (λ cp, ∀ n, latestBlockNum cs < n <= hn →
                     ethGetBlockByNumber cp n = inr (blk n)) ticks →
  (Z.to_nat (hn - latestBlockNum cs) ≤ fuel)%nat →
  StartPoller fuel ticks cs = Some (Returned tt (advancedTo hn blk cs)).
Proof.
  induction ticks as [|cp later IH];
    intros hs cs hn Hlo Hrep Hsort Hlast Hmax Hd Hblk Hfuel.
  - apply Forall2_nil_inv_l in Hrep as ->. injection Hlast as <-.
    simpl. by rewrite advancedTo_same.
  - apply Forall2_cons_inv_l in Hrep as (h1 & hs' & Hh1 & Hrep & ->).
    rewrite last_cons_cons in Hlast.
    apply StronglySorted_inv in Hsort as [Hsort Hall].
    apply Forall_cons in Hall as Hle. destruct Hle as [Hle _].
    assert (Hh1n : h1 <= hn).
    { apply last_Some_elem_of in Hlast.
      apply StronglySorted_inv in Hsort as [_ Hall1].
      apply elem_of_cons in Hlast as [->|Hin]; [lia|].
      by eapply Forall_forall in Hall1. }
    apply Forall_cons in Hblk as [Hblk1 Hblk].
    simpl.
    rewrite (catchup_advancedTo fuel cp cs h1 blk); try done; try lia.
    + simpl. rewrite (IH hs' (advancedTo h1 blk cs) hn); simpl; try done;
        try lia.
      * by rewrite advancedTo_twice.
      * eapply Forall_impl; [exact Hblk|]. simpl. intros cp' H n Hn.
        apply H. lia.
    + intros n Hn. apply Hblk1. lia.
Qed.

(** X6. How often the poller ticks does not matter.  When the heights
    reported at the ticks never go down and the endpoint serves the same
    blocks at every tick, the cycles of all the ticks together leave the
    tracker as the single cycle of the last tick alone would have left
    it. *)
Theorem StartPoller_many_ticks_as_one fuel blk earlier cp hs h cs :
  minInt64 <= latestBlockNum cs →
  Forall2 (λ cp h, ethBlockNumber cp = inr h) (earlier ++ [cp]) (hs ++ [h]) →
  StronglySorted Z.le (latestBlockNum cs :: hs ++ [h]) →
  h < maxInt64 → h - latestBlockNum cs <= maxInt64 →
  Forall (λ cp, ∀ n, latestBlockNum cs < n <= h →
                     ethGetBlockByNumber cp n = inr (blk n)) (earlier ++ [cp]) →
  (Z.to_nat (h - latestBlockNum cs) ≤ fuel)%nat →
  StartPoller fuel (earlier ++ [cp]) cs = StartPoller fuel [cp] cs ∧
  StartPoller fuel [cp] cs = Some (Returned tt (advancedTo h blk cs)).
Proof.
  intros Hlo Hrep Hsort Hmax Hd Hblk Hfuel.
  assert (Hall : StartPoller fuel (earlier ++ [cp]) cs
                 = Some (Returned tt (advancedTo h blk cs))).
  { apply (StartPoller_advancedTo fuel blk _ (hs ++ [h])); try done.
    by rewrite app_comm_cons, last_snoc. }
  assert (Hone : StartPoller fuel [cp] cs
                 = Some (Returned tt (advancedTo h blk cs))).
  { assert (Hlen : length earlier = length hs).
    { apply Forall2_length in Hrep. rewrite !length_app in Hrep.
      simpl in Hrep. lia. }
    apply Forall2_app_inv in Hrep as [_ Hcp]; [|done].
    apply Forall_app in Hblk as [_ Hblk].
    apply (StartPoller_advancedTo fuel blk _ [h]); try done.
    apply StronglySorted_inv in Hsort as [_ Hall'].
    apply Forall_app in Hall' as [_ Hh].
    apply Forall_cons in Hh as [Hh _].
    repeat constructor. done. }
  by rewrite Hall, Hone.
Qed.

Lemma StartPoller_many_ticks_as_one_witness :
  StartPoller 2 [testChain (inr 100) []; testChain (inr 101) [];
                 testChain (inr 102) []] stateA
  = StartPoller 2 [testChain (inr 102) []] stateA.
Proof.
  apply (StartPoller_many_ticks_as_one 2 testBlock
           [testChain (inr 100) []; testChain (inr 101) []]
           (testChain (inr 102) []) [100; 101] 102 stateA).
  - concrete.
  - repeat constructor.
  - repeat constructor; simpl; lia.
  - concrete.
  - concrete.
  - repeat constructor.
  - simpl. lia.
Defined.

Lemma StartPoller_keeps_Ready_witness :
  Ready (queued 102 [92; 101; 102]) ∧
  latestBlockNum stateA <= latestBlockNum (queued 102 [92; 101; 102]).
Proof.
  destruct (StartPoller_keeps_Ready 2
              [testChain (inr 100) []; testChain (inr 102) []]
              stateA (queued 102 [92; 101; 102])) as (HR & _ & Hle & _).
  - apply (Ready_Init 3 (testChain (inr 100) []) (NewChainSentry "ETH1")).
    + split; reflexivity.
    + concrete.
    + intros h [= <-]. concrete.
    + vm_compute. reflexivity.
  - repeat (apply Forall_cons_2; [intros h [= <-]; concrete|]).
    apply Forall_nil_2.
  - vm_compute. reflexivity.
  - split; [exact HR | exact Hle].
Defined.

(** ** From the endpoint to the reader *)

Lemma Init_returns fuel cp cs tip0 blk :
  saneConfig cs → 0 <= tip0 < maxInt64 →
  ethBlockNumber cp = inr tip0 →
  (∀ n, tip0 - finalizedBlockDistance cs - numFinalBlocks cs <= n
        <= tip0 - finalizedBlockDistance cs - 1 →
        ethGetBlockByNumber cp n = inr (blk n)) →
  (Z.to_nat (numFinalBlocks cs) ≤ fuel)%nat →
  Init fuel cp cs
  = Some (Returned None
      (withBlocksQueue
         (blocksQueue cs
          ++ (blk <$> seqZ (tip0 - finalizedBlockDistance cs - numFinalBlocks cs)
                           (numFinalBlocks cs)))
         (withLatestBlockNum tip0 cs))).
Proof.
  intros (Hd & Hn & Hsum) Htip Hcp Hblk Hfuel.
  unfold Init, fetchLatestBlockNum, SetLatestBlockNum. rewrite Hcp. simpl.
  unwrap.
  rewrite (fetchLoop_all_fetched (Z.to_nat (numFinalBlocks cs)) _ _ _ _ _ blk);
    try int64; try done.
  - simpl. rewrite Z2Nat.id by lia.
    by replace (tip0 - (finalizedBlockDistance cs + numFinalBlocks cs))
      with (tip0 - finalizedBlockDistance cs - numFinalBlocks cs) by lia.
  - intros k Hk. apply Hblk. lia.
Qed.

(** What [GetLatestBlockData] returns on a queue that is long enough: key
    by key, the hash of the block at the matching queue position. *)
Lemma GetLatestBlockData_returns cs :
  saneConfig cs → 0 <= latestBlockNum cs < maxInt64 →
  (Z.to_nat (numFinalBlocks cs) ≤ length (blocksQueue cs))%nat →
  ∃ hashes : gmap Z value,
    GetLatestBlockData cs = Returned (latestBlockNum cs, hashes, None) cs ∧
    ∀ k, hashes !! k =
         let first :=
           latestBlockNum cs - finalizedBlockDistance cs - numFinalBlocks cs in
         if decide (first <= k < first + numFinalBlocks cs)
         then hashOf <$> (blocksQueue cs !! Z.to_nat (k - first))
         else None.
Proof.
  intros (Hd & Hn & Hsum) Htip Hlen.
  unfold GetLatestBlockData, GetLatestBlockNum.
  destruct (collectHashes_spec (Z.to_nat (numFinalBlocks cs)) 0 ∅ cs
              (latestBlockNum cs)) as (hashes & -> & Hspec); [int64..|lia|].
  exists hashes. split; [done|]. intros k. rewrite Hspec. simpl.
  repeat case_decide; try lia; done.
Qed.

(** X7. From the endpoint to the reader, after [Init] alone: on an
    uninitialized tracker a successful [Init] followed by
    [GetLatestBlockData] returns the reported height and, for every height
    of the final range and for no other, the hash of the block the
    endpoint serves for that very height. *)
Theorem Init_then_GetLatestBlockData fuel cp cs0 tip0 blk :
  Uninitialized cs0 → saneConfig cs0 → 0 <= tip0 < maxInt64 →
  ethBlockNumber cp = inr tip0 →
  (∀ n, tip0 - finalizedBlockDistance cs0 - numFinalBlocks cs0 <= n
        <= tip0 - finalizedBlockDistance cs0 - 1 →
        ethGetBlockByNumber cp n = inr (blk n)) →
  (Z.to_nat (numFinalBlocks cs0) ≤ fuel)%nat →
  ∃ cs (hashes : gmap Z value),
    Init fuel cp cs0 = Some (Returned None cs) ∧
    GetLatestBlockData cs = Returned (tip0, hashes, None) cs ∧
    ∀ n, hashes !! n =
         if decide (tip0 - finalizedBlockDistance cs0 - numFinalBlocks cs0 <= n
                    <= tip0 - finalizedBlockDistance cs0 - 1)
         then Some (hashOf (blk n)) else None.
Proof.
  intros [_ Hq] Hcfg Htip Hcp Hblk Hfuel.
  pose proof Hcfg as (Hd & Hn & Hsum).
  pose proof (Init_returns fuel cp cs0 tip0 blk Hcfg Htip Hcp Hblk Hfuel) as Hrun.
  rewrite Hq in Hrun. simpl in Hrun.
  match type of Hrun with _ = Some (Returned None ?cs1) =>
    destruct (GetLatestBlockData_returns cs1) as (hashes & Hget & Hspec);
    [done|simpl; lia|simpl; rewrite length_fmap, length_seqZ; lia|];
    exists cs1, hashes
  end.
  split; [done|]. split; [exact Hget|].
  intros n. rewrite Hspec. simpl.
  repeat case_decide; try lia; try done.
  rewrite list_lookup_fmap, lookup_seqZ_lt by lia. simpl.
  do 3 f_equal. lia.
Qed.

Lemma Init_then_GetLatestBlockData_witness :
  ∃ cs (hashes : gmap Z value),
    Init 3 (testChain (inr 100) []) (NewChainSentry "ETH1")
    = Some (Returned None cs) ∧
    GetLatestBlockData cs = Returned (100, hashes, None) cs ∧
    ∀ n, hashes !! n =
         if decide (100 - 7 - 3 <= n <= 100 - 7 - 1)
         then Some (hashOf (testBlock n)) else None.
Proof.
  apply (Init_then_GetLatestBlockData 3 (testChain (inr 100) [])
           (NewChainSentry "ETH1") 100 testBlock).
  - split; reflexivity.
  - concrete.
  - concrete.
  - reflexivity.
  - reflexivity.
  - simpl. unfold DEFAULT_NUM_FINAL_BLOCKS. lia.
Defined.

(** X8. From the endpoint to the reader, after [Init] and one refresh that
    advanced the height: [GetLatestBlockData] returns the new height and a
    hash for every height of the new final range and for no other.  The
    heights that were in the queue before the refresh still carry the hash
    of their own block; every other height [n] of the range carries the
    hash of the block of height [n + finalizedBlockDistance + 1], which is
    the block the refresh fetched. *)
Theorem Init_refresh_then_GetLatestBlockData fuel cp1 cp2 cs0 tip0 newTip blk :
  Uninitialized cs0 → saneConfig cs0 →
  0 <= tip0 → tip0 < newTip < maxInt64 →
  ethBlockNumber cp1 = inr tip0 → ethBlockNumber cp2 = inr newTip →
  (∀ n, tip0 - finalizedBlockDistance cs0 - numFinalBlocks cs0 <= n
        <= tip0 - finalizedBlockDistance cs0 - 1 →
        ethGetBlockByNumber cp1 n = inr (blk n)) →
  (∀ n, tip0 < n <= newTip → ethGetBlockByNumber cp2 n = inr (blk n)) →
  (Z.to_nat (numFinalBlocks cs0) ≤ fuel)%nat →
  (Z.to_nat (newTip - tip0) ≤ fuel)%nat →
  ∃ cs (hashes : gmap Z value),
    andThen (Init fuel cp1 cs0) (catchupOnFinalizedBlocks fuel cp2)
    = Some (Returned None cs) ∧
    GetLatestBlockData cs = Returned (newTip, hashes, None) cs ∧
    ∀ n, hashes !! n =
         if decide (newTip - finalizedBlockDistance cs0 - numFinalBlocks cs0 <= n
                    <= newTip - finalizedBlockDistance cs0 - 1)
         then if decide (n <= tip0 - finalizedBlockDistance cs0 - 1)
              then Some (hashOf (blk n))
              else Some (hashOf (blk (n + finalizedBlockDistance cs0 + 1)))
         else None.
Proof.
  intros [_ Hq] Hcfg Htip0 Htip Hcp1 Hcp2 Hblk1 Hblk2 Hfuel1 Hfuel2.
  pose proof Hcfg as (Hd & Hn & Hsum).
  rewrite (Init_returns fuel cp1 cs0 tip0 blk) by (done || int64).
  rewrite Hq. simpl.
  match goal with |- context [catchupOnFinalizedBlocks _ _ ?cs1] =>
    rewrite (catchup_advances fuel cp2 cs1 newTip blk) by (simpl; done || int64);
    simpl
  end.
  match goal with |- context [Some (Returned None ?cs2) = _] =>
    destruct (GetLatestBlockData_returns cs2) as (hashes & Hget & Hspec);
    [done|simpl; lia| |exists cs2, hashes]
  end.
  { simpl. rewrite length_drop, length_app, !length_fmap, !length_seqZ. lia. }
  split; [done|]. split; [exact Hget|].
  intros n. rewrite Hspec. simpl.
  repeat case_decide; try lia; try done.
  - rewrite lookup_drop, <- fmap_app, list_lookup_fmap, lookup_app_l
      by (rewrite length_seqZ; lia).
    rewrite lookup_seqZ_lt by lia. simpl. do 3 f_equal. lia.
  - rewrite lookup_drop, <- fmap_app, list_lookup_fmap, lookup_app_r
      by (rewrite length_seqZ; lia).
    rewrite length_seqZ, lookup_seqZ_lt by lia. simpl. do 3 f_equal. lia.
Qed.

Lemma Init_refresh_then_GetLatestBlockData_witness :
  ∃ cs (hashes : gmap Z value),
    andThen (Init 3 (testChain (inr 100) []) (NewChainSentry "ETH1"))
            (catchupOnFinalizedBlocks 3 (testChain (inr 102) []))
    = Some (Returned None cs) ∧
    GetLatestBlockData cs = Returned (102, hashes, None) cs ∧
    ∀ n, hashes !! n =
         if decide (102 - 7 - 3 <= n <= 102 - 7 - 1)
         then if decide (n <= 100 - 7 - 1)
              then Some (hashOf (testBlock n))
              else Some (hashOf (testBlock (n + 7 + 1)))
         else None.
Proof.
  apply (Init_refresh_then_GetLatestBlockData 3 (testChain (inr 100) [])
           (testChain (inr 102) []) (NewChainSentry "ETH1") 100 102 testBlock).
  - split; reflexivity.
  - concrete.
  - lia.
  - concrete.
  - reflexivity.
  - reflexivity.
  - reflexivity.
  - reflexivity.
  - simpl. unfold DEFAULT_NUM_FINAL_BLOCKS. lia.
  - simpl. lia.
Defined.

(** ** A chain shorter than the window *)

(** X9. [Init] does not check that the chain is long enough.  On a chain
    whose height is below [finalizedBlockDistance + numFinalBlocks] the
    first block it asks for has a negative height; against an endpoint
    that serves no negative height [Init] ends the process at that first
    fetch, the reported height already stored and nothing queued. *)
Theorem Init_short_chain_exits fuel cp cs tip0 :
  saneConfig cs → 0 < numFinalBlocks cs →
  0 <= tip0 < finalizedBlockDistance cs + numFinalBlocks cs →
  ethBlockNumber cp = inr tip0 →
  (∀ n, n < 0 → ∃ err, ethGetBlockByNumber cp n = inl err) →
  (0 < fuel)%nat →
  Init fuel cp cs = Some (Exited (withLatestBlockNum tip0 cs)).
Proof.
  intros (Hd & Hn & Hsum) Hpos Htip Hcp Hneg Hfuel.
  destruct (Hneg (tip0 - finalizedBlockDistance cs - numFinalBlocks cs))
    as [err Herr]; [lia|].
  unfold Init, fetchLatestBlockNum, SetLatestBlockNum. rewrite Hcp. simpl.
  unwrap.
  replace (tip0 - (finalizedBlockDistance cs + numFinalBlocks cs))
    with (tip0 - finalizedBlockDistance cs - numFinalBlocks cs) by lia.
  rewrite (fetchLoop_first_failure 0 _ _ _ _
             (tip0 - finalizedBlockDistance cs - numFinalBlocks cs)
             _ (λ _, ∅) err); try int64; try done.
  simpl. by rewrite app_nil_r.
Qed.

Lemma Init_short_chain_exits_witness :
  Init 1 (youngChain 5) (NewChainSentry "ETH1")
  = Some (Exited (withLatestBlockNum 5 (NewChainSentry "ETH1"))).
Proof.
  apply (Init_short_chain_exits 1 (youngChain 5) (NewChainSentry "ETH1") 5).
  - concrete.
  - simpl. unfold DEFAULT_NUM_FINAL_BLOCKS. lia.
  - concrete.
  - reflexivity.
  - intros n Hn. exists ErrUnmarshal. simpl. by rewrite decide_True.
  - lia.
Defined.

Lemma catchup_last_block_witness :
  ∃ cs', catchupOnFinalizedBlocks 2 (testChain (inr 102) []) stateA
         = Some (Returned None cs') ∧
         latestBlockNum cs' = 102 ∧
         last (blocksQueue cs') = Some (testBlock 102).
Proof.
  apply (catchup_last_block 2 (testChain (inr 102) []) stateA 102 testBlock).
  - concrete.
  - concrete.
  - concrete.
  - reflexivity.
  - reflexivity.
  - simpl. lia.
  - discriminate.
Defined.

(** ** Calls that do not fit the protocol *)

(** X10. One failed height fetch stops the poller of a ready tracker for
    good: the cycle of that tick panics, the tracker as it was, and no
    later tick runs a cycle. *)
Theorem StartPoller_height_fetch_failure fuel cp later cs err :
  Ready cs → ethBlockNumber cp = inl err →
  StartPoller fuel (cp :: later) cs = Some (Panicked cs).
Proof.
  intros HR Hcp. simpl.
  by rewrite (catchup_height_fetch_failure fuel cp cs err).
Qed.

Lemma StartPoller_height_fetch_failure_witness :
  StartPoller 2 [testChain (inl ErrSend) []; testChain (inr 102) []] stateA
  = Some (Panicked stateA).
Proof.
  apply (StartPoller_height_fetch_failure 2 (testChain (inl ErrSend) [])
           [testChain (inr 102) []] stateA ErrSend).
  - apply (Ready_Init 3 (testChain (inr 100) []) (NewChainSentry "ETH1")).
    + split; reflexivity.
    + concrete.
    + intros h [= <-]. concrete.
    + vm_compute. reflexivity.
  - reflexivity.
Defined.

(** X12. A second [Init] does not start over.  It stores the new height
    and appends the blocks of the new final range behind the blocks of the
    first [Init], so the queue is twice [numFinalBlocks] long, and
    [GetLatestBlockData], which reads the head of the queue, returns the
    hashes of the first [Init] under the heights of the new final range. *)
Theorem Init_twice_keeps_first_blocks fuel cp1 cp2 cs0 tip1 tip2 blk1 blk2 :
  Uninitialized cs0 → saneConfig cs0 →
  0 <= tip1 < maxInt64 → 0 <= tip2 < maxInt64 →
  ethBlockNumber cp1 = inr tip1 → ethBlockNumber cp2 = inr tip2 →
  (∀ n, tip1 - finalizedBlockDistance cs0 - numFinalBlocks cs0 <= n
        <= tip1 - finalizedBlockDistance cs0 - 1 →
        ethGetBlockByNumber cp1 n = inr (blk1 n)) →
  (∀ n, tip2 - finalizedBlockDistance cs0 - numFinalBlocks cs0 <= n
        <= tip2 - finalizedBlockDistance cs0 - 1 →
        ethGetBlockByNumber cp2 n = inr (blk2 n)) →
  (Z.to_nat (numFinalBlocks cs0) ≤ fuel)%nat →
  ∃ cs (hashes : gmap Z value),
    andThen (Init fuel cp1 cs0) (Init fuel cp2) = Some (Returned None cs) ∧
    Z.of_nat (length (blocksQueue cs)) = 2 * numFinalBlocks cs0 ∧
    GetLatestBlockData cs = Returned (tip2, hashes, None) cs ∧
    ∀ n, hashes !! n =
         if decide (tip2 - finalizedBlockDistance cs0 - numFinalBlocks cs0 <= n
                    <= tip2 - finalizedBlockDistance cs0 - 1)
         then Some (hashOf (blk1 (n - (tip2 - tip1)))) else None.
Proof.
  intros [_ Hq] Hcfg Htip1 Htip2 Hcp1 Hcp2 Hblk1 Hblk2 Hfuel.
  pose proof Hcfg as (Hd & Hn & Hsum).
  rewrite (Init_returns fuel cp1 cs0 tip1 blk1) by done.
  rewrite Hq. simpl.
  match goal with |- context [Init _ _ ?cs1] =>
    rewrite (Init_returns fuel cp2 cs1 tip2 blk2) by done; simpl
  end.
  match goal with |- context [Some (Returned None ?cs2) = _] =>
    destruct (GetLatestBlockData_returns cs2) as (hashes & Hget & Hspec);
    [done|simpl; lia| |exists cs2, hashes]
  end.
  { simpl. rewrite length_app, !length_fmap, !length_seqZ. lia. }
  split; [done|]. split; [|split; [exact Hget|]].
  - simpl. rewrite length_app, !length_fmap, !length_seqZ. lia.
  - intros n. rewrite Hspec. simpl.
    repeat case_decide; try lia; try done.
    rewrite lookup_app_l by (rewrite length_fmap, length_seqZ; lia).
    rewrite list_lookup_fmap, lookup_seqZ_lt by lia. simpl. do 3 f_equal. lia.
Qed.

Lemma Init_twice_keeps_first_blocks_witness :
  ∃ cs (hashes : gmap Z value),
    andThen (Init 3 (testChain (inr 100) []) (NewChainSentry "ETH1"))
            (Init 3 (testChain (inr 200) []))
    = Some (Returned None cs) ∧
    Z.of_nat (length (blocksQueue cs)) = 2 * 3 ∧
    GetLatestBlockData cs = Returned (200, hashes, None) cs ∧
    ∀ n, hashes !! n =
         if decide (200 - 7 - 3 <= n <= 200 - 7 - 1)
         then Some (hashOf (testBlock (n - (200 - 100)))) else None.
Proof.
  apply (Init_twice_keeps_first_blocks 3 (testChain (inr 100) [])
           (testChain (inr 200) []) (NewChainSentry "ETH1") 100 200
           testBlock testBlock).
  - split; reflexivity.
  - concrete.
  - concrete.
  - concrete.
  - reflexivity.
  - reflexivity.
  - reflexivity.
  - reflexivity.
  - simpl. unfold DEFAULT_NUM_FINAL_BLOCKS. lia.
Defined.

(** X13. A refresh cycle before any [Init]: on an uninitialized tracker a
    cycle that observes the height [h] fetches every block from height [1]
    to [h], then drops them all again.  It returns a nil error with the
    height stored and the queue still empty, so the tracker is no nearer to
    answering [GetLatestBlockData]. *)
Theorem catchup_before_Init fuel cp cs h blk :
  Uninitialized cs → 0 < h < maxInt64 →
  ethBlockNumber cp = inr h →
  (∀ n, 0 < n <= h → ethGetBlockByNumber cp n = inr (blk n)) →
  (Z.to_nat h ≤ fuel)%nat →
  catchupOnFinalizedBlocks fuel cp cs
  = Some (Returned None (withLatestBlockNum h cs)) ∧
  blocksQueue (withLatestBlockNum h cs) = [] ∧
  (0 < numFinalBlocks cs →
   GetLatestBlockData (withLatestBlockNum h cs)
   = Panicked (withLatestBlockNum h cs)).
Proof.
  intros [Htip Hq] Hh Hcp Hblk Hfuel. split; [|split].
  - pose proof (catchup_advances fuel cp cs h blk) as Hrun.
    rewrite Htip, Hq, Z.sub_0_r in Hrun. simpl in Hrun.
    rewrite drop_ge in Hrun by (rewrite length_fmap, length_seqZ; lia).
    rewrite Hrun; try done; try int64.
    do 3 f_equal. destruct cs; simpl in *. by subst.
  - done.
  - intros Hn. unfold GetLatestBlockData. simpl.
    destruct (Z.to_nat (numFinalBlocks cs)) eqn:Hto; [lia|].
    simpl. by rewrite Hq.
Qed.

Lemma catchup_before_Init_witness :
  catchupOnFinalizedBlocks 4 (testChain (inr 4) []) (NewChainSentry "ETH1")
  = Some (Returned None (withLatestBlockNum 4 (NewChainSentry "ETH1"))) ∧
  GetLatestBlockData (withLatestBlockNum 4 (NewChainSentry "ETH1"))
  = Panicked (withLatestBlockNum 4 (NewChainSentry "ETH1")).
Proof.
  destruct (catchup_before_Init 4 (testChain (inr 4) [])
              (NewChainSentry "ETH1") 4 testBlock) as (Hrun & _ & Hread).
  - split; reflexivity.
  - concrete.
  - reflexivity.
  - reflexivity.
  - simpl. lia.
  - split; [exact Hrun|]. apply Hread. reflexivity.
Defined.
